(** * banner-masonry: the masonry layout and the banner generator

    A shallow embedding of [src/utils/bannerGenerator.ts] (class
    [BannerGenerator] and the components [PrintSettings] and
    [ImageUploader]), of [src/utils/imageProcessor.ts] and of the types
    they use, with the properties of the layout, of the conversion of the
    configured size to pixels and of the failures of [generateBanner].

    JavaScript [number]s are modelled twice.

    - Module [Binary64] has them as they are, binary64 numbers (the
      primitive floats, whose operations [SpecFloat] specifies): there
      the loop of [calculateMasonryLayout] and the conversion to pixels
      round, compare and select as the program does, and divide by zero
      as it does.  What depends on how a comparison comes out (the
      column selected, the fit test, the images rejected) and what
      depends on a rounded product (the pixels) is stated there.

    - Outside the module they are the exact rationals [Q], with
      [Qeq_bool] for [===].  This is the model of [generateBanner] as a
      whole, with its events and its failures; the properties stated
      over it relate its guards, its layout and its drawing to one
      another, hold of the layout whatever its comparisons decide, or
      are about exact arithmetic in their own words (the aspect ratio
      of an item).

    The one place where the code meets a value that is not a number
    whatever the images are ([Math.min()] of no columns is [Infinity],
    [indexOf] then answers [-1] and [columnHeights[-1]] is [undefined])
    is modelled with [option]. *)

From Stdlib Require Import QArith Qround Qminmax Lqa Lia ZArith Ascii String
  DecimalString Floats Uint63.
From stdpp Require Import base list.

Set Warnings "-inexact-float".

Open Scope Q_scope.

(** ** Numbers *)

(** A count (a column count, an array index) read as a [number]. *)
Definition of_nat (n : nat) : Q := inject_Z (Z.of_nat n).

(** [Math.min(...xs)].  [None] stands for [Infinity], the answer for no
    argument; otherwise the answer is the least argument. *)
Fixpoint Math_min (xs : list Q) : option Q :=
  match xs with
  | [] => None
  | x :: rest =>
      match Math_min rest with
      | None => Some x
      | Some m => Some (Qmin x m)
      end
  end.

(** [xs.indexOf(v)]: the first index whose element is [=== v].  [None]
    stands for [-1]. *)
Fixpoint indexOf (xs : list Q) (v : Q) : option nat :=
  match xs with
  | [] => None
  | x :: rest => if Qeq_bool x v then Some 0%nat else S <$> indexOf rest v
  end.

(** [Math.round(x)]: the integer nearest to [x], a half going up. *)
Definition Math_round (x : Q) : Z := Qfloor (x + (1 # 2)).

(** [Math.floor(x)]. *)
Definition Math_floor (x : Q) : Z := Qfloor x.

(** ** Types ([src/types]) *)

Module Dimensions.
Record t : Type := mk { width : Q; height : Q }.
End Dimensions.

Module ProcessedImage.
(** The fields the banner generator reads: [id], the name of
    [originalFile], the data URL [display] and [originalDimensions]. *)
Record t : Type := mk {
  id : string;
  originalFile : string;
  display : string;
  originalDimensions : Dimensions.t
}.
End ProcessedImage.

Module MasonryItem.
Record t : Type := mk {
  image : ProcessedImage.t;
  x : Q;
  y : Q;
  width : Q;
  height : Q
}.
End MasonryItem.

Inductive Unit : Type := px | inch | cm.

Module PrintConfig.
Record t : Type := mk {
  width : Q;
  height : Q;
  unit : Unit;
  dpi : Q;
  quality : Q
}.
End PrintConfig.

(** ** [calculateMasonryLayout] *)

(** [const columnWidth = (bannerWidth - gap * (columns + 1)) / columns] *)
Definition columnWidth (bannerWidth : Q) (columns : nat) (gap : Q) : Q :=
  (bannerWidth - gap * (of_nat columns + 1)) / of_nat columns.

(** The two variables the loop updates: the array [items] and the array
    [columnHeights]. *)
Record LoopState : Type := mkLoop {
  items : list MasonryItem.t;
  columnHeights : list Q
}.

(** [columnHeights.indexOf(Math.min(...columnHeights))] *)
Definition shortestColumnIndex (heights : list Q) : option nat :=
  match Math_min heights with
  | None => None
  | Some m => indexOf heights m
  end.

(** The body of [for (const image of images)].  Without a column the index
    is [-1], [y] is [undefined], [y + itemHeight] is [NaN] and the test
    [<=] is false: nothing is pushed. *)
Definition place (bannerWidth bannerHeight : Q) (columns : nat) (gap : Q)
    (st : LoopState) (image : ProcessedImage.t) : LoopState :=
  let aspectRatio :=
    Dimensions.width (ProcessedImage.originalDimensions image)
    / Dimensions.height (ProcessedImage.originalDimensions image) in
  let itemWidth := columnWidth bannerWidth columns gap in
  let itemHeight := itemWidth / aspectRatio in
  match shortestColumnIndex (columnHeights st) with
  | None => st
  | Some i =>
      let x := gap + of_nat i * (columnWidth bannerWidth columns gap + gap) in
      match columnHeights st !! i with
      | None => st
      | Some y =>
          if Qle_bool (y + itemHeight) (bannerHeight - gap) then
            {| items := items st
                 ++ [MasonryItem.mk image x y itemWidth itemHeight];
               columnHeights :=
                 <[i := y + itemHeight + gap]> (columnHeights st) |}
          else st
      end
  end.

(** The state before the loop: [new Array(columns).fill(gap)] and [[]]. *)
Definition initial (columns : nat) (gap : Q) : LoopState :=
  {| items := []; columnHeights := replicate columns gap |}.

(** The state after the loop has gone through [images]. *)
Definition run (bannerWidth bannerHeight : Q) (columns : nat) (gap : Q)
    (images : list ProcessedImage.t) : LoopState :=
  fold_left (place bannerWidth bannerHeight columns gap) images
    (initial columns gap).

(** [calculateMasonryLayout(images, bannerWidth, bannerHeight, columns,
    gap)]; a caller that leaves [columns] or [gap] out gets 3 and 10. *)
Definition calculateMasonryLayout (images : list ProcessedImage.t)
    (bannerWidth bannerHeight : Q) (columns : nat) (gap : Q)
    : list MasonryItem.t :=
  items (run bannerWidth bannerHeight columns gap images).

(** ** [generateBanner] *)

(** The [Error]s [generateBanner] throws, one constructor a [throw] (or
    [reject]) of the source. *)
Inductive Error : Type :=
| NoImages
| DimensionsTooLarge (maxDimension bannerWidth bannerHeight : Z)
| NoImagesFit
| NoCanvasContext
| ToBlobNull
| ToBlobFailed (reason : string).

(** A number in a template string. *)
Definition show (z : Z) : string := NilZero.string_of_int (Z.to_int z).

(** [error.message] *)
Definition message (e : Error) : string :=
  match e with
  | NoImages => "No images to generate banner"
  | DimensionsTooLarge maxDimension bannerWidth bannerHeight =>
      "Banner dimensions too large. Maximum dimension is "
      ++ show maxDimension ++ "px. Current: "
      ++ show bannerWidth ++ "x" ++ show bannerHeight ++ "px"
  | NoImagesFit =>
      "No images fit in the specified banner dimensions. Try increasing the banner size."
  | NoCanvasContext => "Failed to get canvas context"
  | ToBlobNull =>
      "Canvas toBlob returned null. This may be due to canvas size limits or memory constraints."
  | ToBlobFailed reason => "Failed to convert canvas to blob: " ++ reason
  end%string.

(** What the run reports and draws, in order: the calls of [onProgress],
    of the canvas and of the console. *)
Inductive Event : Type :=
| onProgress (progress : Z)
| createCanvas (width height : Z)
| fillRect (fillStyle : string) (x y w h : Z)
| drawImage (src : string) (x y w h : Q)
| strokeRect (strokeStyle : string) (lineWidth : Z) (x y w h : Q)
| console_error (name : string)
| toBlob (type : string) (quality : Q).

Inductive Blob : Type := mkBlob (size : Z).

(** What [canvas.toBlob] does: it hands a blob or [null] to its callback,
    or throws. *)
Inductive ToBlobOutcome : Type :=
| blobResult (result : Blob)
| blobNull
| blobThrows (reason : string).

(** The answers of the browser within one run: whether
    [canvas.getContext('2d')] is an object, whether the promise of
    [loadImage(dataUrl)] resolves, and what [canvas.toBlob] does. *)
Record Browser : Type := mkBrowser {
  getContext : bool;
  loadImage : string -> bool;
  canvasToBlob : ToBlobOutcome
}.

(** A computation that reports events and ends with a value or with a
    thrown [Error]. *)
Definition M (A : Type) : Type := (list Event * (Error + A))%type.

#[global] Instance M_ret : MRet M := fun A a => ([], inr a).

#[global] Instance M_bind : MBind M := fun A B k m =>
  match m with
  | (tr, inl e) => (tr, inl e)
  | (tr, inr a) => let '(tr', r) := k a in (tr ++ tr', r)
  end.

Definition throw {A : Type} (e : Error) : M A := ([], inl e).

Definition emit (ev : Event) : M () := ([ev], inr tt).

Definition maxDimension : Z := 16000.

(** [// Convert dimensions to pixels]: the statements of [generateBanner]
    from [let bannerWidth = config.width] to
    [bannerHeight = Math.round(bannerHeight)]. *)
Definition bannerPixels (config : PrintConfig.t) : Z * Z :=
  let bannerWidth := PrintConfig.width config in
  let bannerHeight := PrintConfig.height config in
  let '(bannerWidth, bannerHeight) :=
    match PrintConfig.unit config with
    | inch =>
        (PrintConfig.width config * PrintConfig.dpi config,
         PrintConfig.height config * PrintConfig.dpi config)
    | cm =>
        ((PrintConfig.width config / (254 # 100)) * PrintConfig.dpi config,
         (PrintConfig.height config / (254 # 100)) * PrintConfig.dpi config)
    | px => (bannerWidth, bannerHeight)
    end in
  (Math_round bannerWidth, Math_round bannerHeight).

(** One turn of the drawing loop, [i] the index of [item] in the layout:
    the [try] block, and the [catch] when the image does not load. *)
Definition drawItem (browser : Browser) (totalItems i : nat)
    (item : MasonryItem.t) : M () :=
  if loadImage browser (ProcessedImage.display (MasonryItem.image item)) then
    emit (drawImage (ProcessedImage.display (MasonryItem.image item))
            (MasonryItem.x item) (MasonryItem.y item)
            (MasonryItem.width item) (MasonryItem.height item));;
    emit (strokeRect "#e2e8f0" 1
            (MasonryItem.x item) (MasonryItem.y item)
            (MasonryItem.width item) (MasonryItem.height item));;
    emit (onProgress
            (30 + Math_floor (of_nat (i + 1) / of_nat totalItems * 60))%Z)
  else
    emit (console_error
            (ProcessedImage.originalFile (MasonryItem.image item))).

(** [for (let i = 0; i < totalItems; i++)], from index [i] on. *)
Fixpoint drawItems (browser : Browser) (totalItems i : nat)
    (layout : list MasonryItem.t) : M () :=
  match layout with
  | [] => mret tt
  | item :: rest =>
      drawItem browser totalItems i item;;
      drawItems browser totalItems (S i) rest
  end.

(** [generateBanner(images, config, onProgress)] in a browser that
    answers as [browser] does.  The layout is called without a gap, which
    is then 10. *)
Definition generateBanner (browser : Browser)
    (images : list ProcessedImage.t) (config : PrintConfig.t) : M Blob :=
  if (length images =? 0)%nat then throw NoImages else
  emit (onProgress 5);;
  let '(bannerWidth, bannerHeight) := bannerPixels config in
  if (bannerWidth >? maxDimension)%Z || (bannerHeight >? maxDimension)%Z
  then throw (DimensionsTooLarge maxDimension bannerWidth bannerHeight) else
  emit (onProgress 10);;
  let columns :=
    Z.max 1 (Z.min 5 (Math_floor (inject_Z bannerWidth / 400))) in
  let layout :=
    calculateMasonryLayout images (inject_Z bannerWidth)
      (inject_Z bannerHeight) (Z.to_nat columns) 10 in
  if (length layout =? 0)%nat then throw NoImagesFit else
  emit (onProgress 20);;
  emit (createCanvas bannerWidth bannerHeight);;
  if negb (getContext browser) then throw NoCanvasContext else
  emit (fillRect "#ffffff" 0 0 bannerWidth bannerHeight);;
  emit (onProgress 30);;
  drawItems browser (length layout) 0 layout;;
  emit (onProgress 95);;
  emit (toBlob "image/jpeg" (PrintConfig.quality config));;
  blob ← match canvasToBlob browser with
         | blobResult result => mret result
         | blobNull => throw ToBlobNull
         | blobThrows reason => throw (ToBlobFailed reason)
         end;
  emit (onProgress 100);;
  mret blob.

(** [calculatePixelDimensions] of the [PrintSettings] component, which
    shows the size the banner will have. *)
Definition calculatePixelDimensions (config : PrintConfig.t) : Z * Z :=
  let width := PrintConfig.width config in
  let height := PrintConfig.height config in
  let '(width, height) :=
    match PrintConfig.unit config with
    | inch =>
        (PrintConfig.width config * PrintConfig.dpi config,
         PrintConfig.height config * PrintConfig.dpi config)
    | cm =>
        ((PrintConfig.width config / (254 # 100)) * PrintConfig.dpi config,
         (PrintConfig.height config / (254 # 100)) * PrintConfig.dpi config)
    | px => (width, height)
    end in
  (Math_round width, Math_round height).

(** ** The vocabulary of the properties *)

(** The invariant of an image in the data model: both original dimensions
    are positive.  Under it (and with at least one column) no division of
    the layout has a zero divisor. *)
Definition positiveDimensions (image : ProcessedImage.t) : Prop :=
  0 < Dimensions.width (ProcessedImage.originalDimensions image)
  /\ 0 < Dimensions.height (ProcessedImage.originalDimensions image).

(** The height [image] is given: the column width over the aspect ratio. *)
Definition placedHeight (bannerWidth : Q) (columns : nat) (gap : Q)
    (image : ProcessedImage.t) : Q :=
  columnWidth bannerWidth columns gap
  / (Dimensions.width (ProcessedImage.originalDimensions image)
     / Dimensions.height (ProcessedImage.originalDimensions image)).

(** The x-offset of column [i]. *)
Definition columnX (bannerWidth : Q) (columns : nat) (gap : Q) (i : nat)
    : Q :=
  gap + of_nat i * (columnWidth bannerWidth columns gap + gap).

(** The item recorded for [image] in column [i] at height [y]. *)
Definition placedItem (bannerWidth : Q) (columns : nat) (gap : Q)
    (image : ProcessedImage.t) (i : nat) (y : Q) : MasonryItem.t :=
  MasonryItem.mk image (columnX bannerWidth columns gap i) y
    (columnWidth bannerWidth columns gap)
    (placedHeight bannerWidth columns gap image).

(** The state [image] leaves when it is placed in column [i] at [y]. *)
Definition placedIn (bannerWidth : Q) (columns : nat) (gap : Q)
    (st : LoopState) (image : ProcessedImage.t) (i : nat) (y : Q)
    : LoopState :=
  {| items := items st ++ [placedItem bannerWidth columns gap image i y];
     columnHeights :=
       <[i := y + placedHeight bannerWidth columns gap image + gap]>
         (columnHeights st) |}.

(** Column [i], filled up to [y], is the first of the columns of least
    filled height. *)
Definition firstShortest (heights : list Q) (i : nat) (y : Q) : Prop :=
  heights !! i = Some y
  /\ (forall j z, heights !! j = Some z -> y <= z)
  /\ (forall j z, (j < i)%nat -> heights !! j = Some z -> y < z).

(** The bounding box of [item] lies within
    [[0, canvasWidth] x [0, canvasHeight]]. *)
Definition withinCanvas (canvasWidth canvasHeight : Q)
    (item : MasonryItem.t) : Prop :=
  (0 <= MasonryItem.x item /\ MasonryItem.x item <= canvasWidth)
  /\ (0 <= MasonryItem.y item /\ MasonryItem.y item <= canvasHeight)
  /\ (0 <= MasonryItem.x item + MasonryItem.width item
      /\ MasonryItem.x item + MasonryItem.width item <= canvasWidth)
  /\ (0 <= MasonryItem.y item + MasonryItem.height item
      /\ MasonryItem.y item + MasonryItem.height item <= canvasHeight).

(** [z] is the integer nearest to [x], a half going up. *)
Definition nearest (x : Q) (z : Z) : Prop :=
  x - (1 # 2) < inject_Z z /\ inject_Z z <= x + (1 # 2).

(** The sizes the specification calls invalid. *)
Definition invalidDimension (config : PrintConfig.t) : Prop :=
  PrintConfig.width config <= 0
  \/ PrintConfig.height config <= 0
  \/ (PrintConfig.unit config <> px /\ PrintConfig.dpi config <= 0).

(** ** Inputs of the examples *)

Definition square (name : string) : ProcessedImage.t :=
  ProcessedImage.mk name name name (Dimensions.mk 100 100).

Definition portrait (name : string) : ProcessedImage.t :=
  ProcessedImage.mk name name name (Dimensions.mk 100 200).

(** A browser in which every call succeeds. *)
Definition willingBrowser : Browser :=
  mkBrowser true (fun _ => true) (blobResult (mkBlob 1024)).

(** The rectangle of an item with the name of its image, the numbers in
    lowest terms. *)
Definition rectangle (item : MasonryItem.t) : string * Q * Q * Q * Q :=
  (ProcessedImage.id (MasonryItem.image item),
   Qred (MasonryItem.x item), Qred (MasonryItem.y item),
   Qred (MasonryItem.width item), Qred (MasonryItem.height item)).

(** The size of the specification's scenario: 10 in by 15 in at 300 dpi. *)
Definition tenByFifteenInches : PrintConfig.t :=
  PrintConfig.mk 10 15 inch 300 (9 # 10).

(** A size with a negative width, a negative height and a negative dpi. *)
Definition negativeInches : PrintConfig.t :=
  PrintConfig.mk (-10) (-15) inch (-300) (9 # 10).

(** The specification's scenario of a canvas of 20000 by 20000 pixels. *)
Definition twentyThousandPixels : PrintConfig.t :=
  PrintConfig.mk 20000 20000 px 300 (9 # 10).

(** ** The rest of the banner generator and its callers *)

(** The values [onProgress] was called with, in order. *)
Definition progressOf (trace : list Event) : list Z :=
  omap (fun ev => match ev with onProgress p => Some p | _ => None end)
    trace.

(** The calls of [ctx.drawImage], in order: the data URL and the
    rectangle. *)
Definition drawnOf (trace : list Event) : list (string * Q * Q * Q * Q) :=
  omap (fun ev =>
          match ev with
          | drawImage src x y w h => Some (src, x, y, w, h)
          | _ => None
          end) trace.

(** The files whose load failure went to [console.error], in order. *)
Definition reportedOf (trace : list Event) : list string :=
  omap (fun ev => match ev with console_error name => Some name | _ => None end)
    trace.

(** The number of columns [generateBanner] lays a banner of width
    [bannerWidth] out in:
    [Math.max(1, Math.min(5, Math.floor(bannerWidth / 400)))]. *)
Definition bannerColumns (bannerWidth : Z) : nat :=
  Z.to_nat (Z.max 1 (Z.min 5 (Math_floor (inject_Z bannerWidth / 400)))).

(** The layout [generateBanner] computes for [images] and [config]. *)
Definition bannerLayout (images : list ProcessedImage.t)
    (config : PrintConfig.t) : list MasonryItem.t :=
  calculateMasonryLayout images (inject_Z (fst (bannerPixels config)))
    (inject_Z (snd (bannerPixels config)))
    (bannerColumns (fst (bannerPixels config))) 10.

(** What [drawItem] draws for [item]: the data URL and the rectangle. *)
Definition drawing (item : MasonryItem.t) : string * Q * Q * Q * Q :=
  (ProcessedImage.display (MasonryItem.image item),
   MasonryItem.x item, MasonryItem.y item,
   MasonryItem.width item, MasonryItem.height item).

(** The warning of the [PrintSettings] component is rendered:
    [pixelDimensions.width > 16000 || pixelDimensions.height > 16000]. *)
Definition showsWarning (config : PrintConfig.t) : bool :=
  let '(width, height) := calculatePixelDimensions config in
  (width >? 16000)%Z || (height >? 16000)%Z.

(** [x.toFixed(1)] for [x >= 0]: the tenths nearest to [x], a half going
    up, written with one digit after the point. *)
Definition toFixed1 (x : Q) : string :=
  let n := Qfloor (x * 10 + (1 # 2)) in
  (show (n / 10) ++ "." ++ show (n mod 10))%string.

(** [formatFileSize(bytes)], for a whole number of bytes. *)
Definition formatFileSize (bytes : Z) : string :=
  if (bytes <? 1024)%Z then (show bytes ++ " B")%string
  else if (bytes <? 1024 * 1024)%Z
       then (toFixed1 (inject_Z bytes / 1024) ++ " KB")%string
       else (toFixed1 (inject_Z bytes / (1024 * 1024)) ++ " MB")%string.

(** ** The image processor ([src/utils/imageProcessor.ts]) *)

(** [ImageProcessor.generateId], [now] being what [Date.now()] answers
    and [random] the nine characters taken from [Math.random()]. *)
Definition generateId (now : Z) (random : string) : string :=
  (show now ++ "-" ++ random)%string.

(** ** The progress of the uploader ([ImageUploader]) *)

Module ProcessingProgress.
Inductive Stage : Type := loading | processing | complete | error.
Record t : Type := mk {
  imageId : string;
  fileName : string;
  progress : Z;
  stage : Stage
}.
End ProcessingProgress.

(** A [Map] with string keys: its entries in the order of insertion, no
    key twice. *)
Definition StringMap (V : Type) : Type := list (string * V).

(** [map.get(key)] *)
Fixpoint Map_get {V : Type} (map : StringMap V) (key : string) : option V :=
  match map with
  | [] => None
  | (k, v) :: rest => if String.eqb k key then Some v else Map_get rest key
  end.

(** [map.set(key, value)]: a key the map has keeps its place. *)
Fixpoint Map_set {V : Type} (map : StringMap V) (key : string) (value : V)
    : StringMap V :=
  match map with
  | [] => [(key, value)]
  | (k, v) :: rest =>
      if String.eqb k key then (k, value) :: rest
      else (k, v) :: Map_set rest key value
  end.

(** The key [handleFiles] gives the file at [index]:
    [`temp-${index}-${Date.now()}`]. *)
Definition tempId (index : nat) (now : Z) : string :=
  ("temp-" ++ show (Z.of_nat index) ++ "-" ++ show now)%string.

(** [imageFiles.forEach((file, index) => progressMap.set(...))] from
    [index] on; a file is its name, and [clock index] is what [Date.now()]
    answers at its turn. *)
Fixpoint trackFrom (clock : nat -> Z) (index : nat) (fileNames : list string)
    (progressMap : StringMap ProcessingProgress.t)
    : StringMap ProcessingProgress.t :=
  match fileNames with
  | [] => progressMap
  | name :: rest =>
      trackFrom clock (S index) rest
        (Map_set progressMap (tempId index (clock index))
           (ProcessingProgress.mk (tempId index (clock index)) name 0
              ProcessingProgress.loading))
  end.

(** The map [handleFiles] hands to [setProcessing] before it processes
    the files. *)
Definition initialProgress (clock : nat -> Z) (fileNames : list string)
    : StringMap ProcessingProgress.t :=
  trackFrom clock 0 fileNames [].

(** The update [handleFiles] makes when [processImages] reports
    [progress] for [imageId]: the function given to [setProcessing]. *)
Definition reportProgress (prev : StringMap ProcessingProgress.t)
    (imageId : string) (progress : Z) : StringMap ProcessingProgress.t :=
  let next := prev in
  match Map_get next imageId with
  | Some existing =>
      Map_set next imageId
        (ProcessingProgress.mk
           (ProcessingProgress.imageId existing)
           (ProcessingProgress.fileName existing)
           progress
           (if (progress =? 100)%Z then ProcessingProgress.complete
            else ProcessingProgress.processing))
  | None => next
  end.

(** The values of [ps] never go down. *)
Definition ascending (ps : list Z) : Prop :=
  forall i j p q,
    (i <= j)%nat -> ps !! i = Some p -> ps !! j = Some q -> (p <= q)%Z.

(** The progress [drawItem] reports after the item at index [i] of
    [totalItems]. *)
Definition drawProgress (totalItems i : nat) : Z :=
  (30 + Math_floor (of_nat (i + 1) / of_nat totalItems * 60))%Z.

(** What [generateBanner] reports and draws once the canvas has its
    context, for the layout [layout] of a banner of [bannerWidth] by
    [bannerHeight]. *)
Definition drawingTrace (browser : Browser) (bannerWidth bannerHeight : Z)
    (quality : Q) (layout : list MasonryItem.t) : list Event :=
  [onProgress 5; onProgress 10; onProgress 20;
   createCanvas bannerWidth bannerHeight;
   fillRect "#ffffff" 0 0 bannerWidth bannerHeight; onProgress 30]
  ++ fst (drawItems browser (length layout) 0 layout)
  ++ [onProgress 95; toBlob "image/jpeg" quality]
  ++ match canvasToBlob browser with
     | blobResult _ => [onProgress 100]
     | _ => []
     end.

(** How [generateBanner] ends once the images are drawn. *)
Definition blobOutcome (browser : Browser) : Error + Blob :=
  match canvasToBlob browser with
  | blobResult result => inr result
  | blobNull => inl ToBlobNull
  | blobThrows reason => inl (ToBlobFailed reason)
  end.

(** ** The layout and the conversion in binary64 *)

(** A zero or a finite number: neither [NaN] nor an infinity. *)
Definition SFfinite (x : spec_float) : Prop :=
  match x with
  | S754_zero _ | S754_finite _ _ _ => True
  | _ => False
  end.

(** [calculateMasonryLayout] and the conversion to pixels over the
    [number]s of JavaScript: [+], [-], [*] and [/] round to nearest, ties
    to even; the comparisons are false on [NaN]; [===] holds of [0] and
    [-0]; a division by zero answers an infinity or [NaN]. *)
Module Binary64.
Local Open Scope float_scope.

(** A count (a column count, an array index) read as a [number]; an
    array has fewer than [2^32] elements. *)
Definition of_nat (n : nat) : float := of_uint63 (Uint63.of_Z (Z.of_nat n)).

Definition isNegativeZero (x : float) : bool :=
  match classify x with NZero => true | _ => false end.

Definition isPositiveZero (x : float) : bool :=
  match classify x with PZero => true | _ => false end.

(** The loop of [Math.min] (ECMAScript, Math.min, step 4) from the value
    [lowest] on: a [NaN] is returned at once; a number that is [-0]
    takes the place of a lowest [+0]; a number below the lowest takes its
    place. *)
Fixpoint lowestOf (lowest : float) (coerced : list float) : float :=
  match coerced with
  | [] => lowest
  | number :: rest =>
      if is_nan number then nan
      else if isNegativeZero number && isPositiveZero lowest
           then lowestOf number rest
      else if number <? lowest then lowestOf number rest
      else lowestOf lowest rest
  end.

(** [Math.min(...xs)]; [Infinity] for no argument. *)
Definition Math_min (xs : list float) : float := lowestOf infinity xs.

(** [xs.indexOf(v)]: the first index whose element is [=== v].  [None]
    stands for [-1]. *)
Fixpoint indexOf (xs : list float) (v : float) : option nat :=
  match xs with
  | [] => None
  | x :: rest => if x =? v then Some 0%nat else S <$> indexOf rest v
  end.

Module Dimensions.
Record t : Type := mk { width : float; height : float }.
End Dimensions.

Module ProcessedImage.
Record t : Type := mk {
  id : string;
  originalFile : string;
  display : string;
  originalDimensions : Dimensions.t
}.
End ProcessedImage.

Module MasonryItem.
Record t : Type := mk {
  image : ProcessedImage.t;
  x : float;
  y : float;
  width : float;
  height : float
}.
End MasonryItem.

(** [const columnWidth = (bannerWidth - gap * (columns + 1)) / columns] *)
Definition columnWidth (bannerWidth : float) (columns : nat) (gap : float)
    : float :=
  (bannerWidth - gap * (of_nat columns + 1)) / of_nat columns.

Record LoopState : Type := mkLoop {
  items : list MasonryItem.t;
  columnHeights : list float
}.

(** [columnHeights.indexOf(Math.min(...columnHeights))] *)
Definition shortestColumnIndex (heights : list float) : option nat :=
  indexOf heights (Math_min heights).

(** The body of [for (const image of images)].  With the index [-1] (no
    column, or a [NaN] among the heights) [y] is [undefined],
    [y + itemHeight] is [NaN] and the test [<=] is false: nothing is
    pushed. *)
Definition place (bannerWidth bannerHeight : float) (columns : nat)
    (gap : float) (st : LoopState) (image : ProcessedImage.t) : LoopState :=
  let aspectRatio :=
    Dimensions.width (ProcessedImage.originalDimensions image)
    / Dimensions.height (ProcessedImage.originalDimensions image) in
  let itemWidth := columnWidth bannerWidth columns gap in
  let itemHeight := itemWidth / aspectRatio in
  match shortestColumnIndex (columnHeights st) with
  | None => st
  | Some i =>
      let x := gap + of_nat i * (columnWidth bannerWidth columns gap + gap) in
      match columnHeights st !! i with
      | None => st
      | Some y =>
          if y + itemHeight <=? bannerHeight - gap then
            {| items := items st
                 ++ [MasonryItem.mk image x y itemWidth itemHeight];
               columnHeights :=
                 <[i := y + itemHeight + gap]> (columnHeights st) |}
          else st
      end
  end.

(** The state before the loop: [new Array(columns).fill(gap)] and [[]]. *)
Definition initial (columns : nat) (gap : float) : LoopState :=
  {| items := []; columnHeights := replicate columns gap |}.

(** The state after the loop has gone through [images]. *)
Definition run (bannerWidth bannerHeight : float) (columns : nat)
    (gap : float) (images : list ProcessedImage.t) : LoopState :=
  fold_left (place bannerWidth bannerHeight columns gap) images
    (initial columns gap).

(** [calculateMasonryLayout(images, bannerWidth, bannerHeight, columns,
    gap)] *)
Definition calculateMasonryLayout (images : list ProcessedImage.t)
    (bannerWidth bannerHeight : float) (columns : nat) (gap : float)
    : list MasonryItem.t :=
  items (run bannerWidth bannerHeight columns gap images).

(** The height [image] is given: [itemWidth / aspectRatio]. *)
Definition placedHeight (bannerWidth : float) (columns : nat) (gap : float)
    (image : ProcessedImage.t) : float :=
  columnWidth bannerWidth columns gap
  / (Dimensions.width (ProcessedImage.originalDimensions image)
     / Dimensions.height (ProcessedImage.originalDimensions image)).

(** The item recorded for [image] in column [i] at height [y]. *)
Definition placedItem (bannerWidth : float) (columns : nat) (gap : float)
    (image : ProcessedImage.t) (i : nat) (y : float) : MasonryItem.t :=
  MasonryItem.mk image
    (gap + of_nat i * (columnWidth bannerWidth columns gap + gap)) y
    (columnWidth bannerWidth columns gap)
    (placedHeight bannerWidth columns gap image).

(** The state [image] leaves when it is placed in column [i] at [y]. *)
Definition placedIn (bannerWidth : float) (columns : nat) (gap : float)
    (st : LoopState) (image : ProcessedImage.t) (i : nat) (y : float)
    : LoopState :=
  {| items := items st ++ [placedItem bannerWidth columns gap image i y];
     columnHeights :=
       <[i := y + placedHeight bannerWidth columns gap image + gap]>
         (columnHeights st) |}.

(** Column [i], filled up to [y], is the first of the columns of least
    filled height. *)
Definition firstShortest (heights : list float) (i : nat) (y : float)
    : Prop :=
  heights !! i = Some y
  /\ (forall j z, heights !! j = Some z -> (y <=? z) = true)
  /\ (forall j z, (j < i)%nat -> heights !! j = Some z -> (y <? z) = true).

(** None of [xs] is [NaN]. *)
Definition noNaN (xs : list float) : Prop :=
  Forall (fun z => is_nan z = false) xs.

(** The state a turn of the loop can meet: as many filled heights as
    columns, none of them [NaN]. *)
Definition columnsFilled (columns : nat) (st : LoopState) : Prop :=
  length (columnHeights st) = columns /\ noNaN (columnHeights st).

(** [image], arriving when the columns are filled up to [heights], would
    exceed [bannerHeight - gap] in the column selected for it. *)
Definition exceeds (bannerWidth bannerHeight : float) (columns : nat)
    (gap : float) (heights : list float) (image : ProcessedImage.t) : bool :=
  match shortestColumnIndex heights with
  | None => false
  | Some i =>
      match heights !! i with
      | None => false
      | Some y =>
          bannerHeight - gap <? y + placedHeight bannerWidth columns gap image
      end
  end.

(** How many of [images], laid out from the state [st] on, exceed it. *)
Fixpoint rejectedFrom (bannerWidth bannerHeight : float) (columns : nat)
    (gap : float) (st : LoopState) (images : list ProcessedImage.t) : nat :=
  match images with
  | [] => 0%nat
  | image :: rest =>
      ((if exceeds bannerWidth bannerHeight columns gap
             (columnHeights st) image then 1 else 0)
       + rejectedFrom bannerWidth bannerHeight columns gap
           (place bannerWidth bannerHeight columns gap st image) rest)%nat
  end.

(** The number of rejected images of a layout. *)
Definition rejectedCount (images : list ProcessedImage.t)
    (bannerWidth bannerHeight : float) (columns : nat) (gap : float) : nat :=
  rejectedFrom bannerWidth bannerHeight columns gap (initial columns gap)
    images.

(** *** The conversion to pixels *)

(** The value of a finite number [(-1)^s * m * 2^e] as a rational; [0]
    for the zeros, and for the infinities and [NaN], which have none. *)
Definition SFvalue (x : spec_float) : Q :=
  match x with
  | S754_finite s m e =>
      if (0 <=? e)%Z then inject_Z (cond_Zopp s (Z.pos m) * 2 ^ e)
      else inject_Z (cond_Zopp s (Z.pos m)) / inject_Z (2 ^ (- e))
  | _ => 0
  end.

Definition value (x : float) : Q := SFvalue (Prim2SF x).

(** The number whose value is the integer [n], for [n] of at most 53
    bits. *)
Definition of_Z (n : Z) : float :=
  if (n <? 0)%Z then - of_uint63 (Uint63.of_Z (- n))
  else of_uint63 (Uint63.of_Z n).

(** [Math.round(x)]: [x] itself when it is [NaN], an infinity, a zero or
    has no fractional bits; otherwise the integral number nearest to
    [x], a half going up, which is [floor(x + 1/2)] computed exactly, and
    is a zero of the sign of [x] when that integer is 0. *)
Definition Math_round (x : float) : float :=
  match Prim2SF x with
  | S754_finite s m e =>
      if (0 <=? e)%Z then x
      else
        let n :=
          ((2 * cond_Zopp s (Z.pos m) + 2 ^ (- e)) / 2 ^ (1 - e))%Z in
        if (n =? 0)%Z then (if s then neg_zero else zero) else of_Z n
  | _ => x
  end.

Module PrintConfig.
Record t : Type := mk {
  width : float;
  height : float;
  unit : Unit;
  dpi : float;
  quality : float
}.
End PrintConfig.

(** The size in pixels before [Math.round]: the statements of
    [generateBanner] from [let bannerWidth = config.width] to the end of
    the [if]. *)
Definition unroundedPixels (config : PrintConfig.t) : float * float :=
  let bannerWidth := PrintConfig.width config in
  let bannerHeight := PrintConfig.height config in
  match PrintConfig.unit config with
  | inch =>
      (PrintConfig.width config * PrintConfig.dpi config,
       PrintConfig.height config * PrintConfig.dpi config)
  | cm =>
      ((PrintConfig.width config / 2.54) * PrintConfig.dpi config,
       (PrintConfig.height config / 2.54) * PrintConfig.dpi config)
  | px => (bannerWidth, bannerHeight)
  end.

(** [// Convert dimensions to pixels], to
    [bannerHeight = Math.round(bannerHeight)]. *)
Definition bannerPixels (config : PrintConfig.t) : float * float :=
  let '(bannerWidth, bannerHeight) := unroundedPixels config in
  (Math_round bannerWidth, Math_round bannerHeight).

(** *** Inputs of the examples *)

Definition square (name : string) : ProcessedImage.t :=
  ProcessedImage.mk name name name (Dimensions.mk 100 100).

(** A strip a hundred times as high as it is wide. *)
Definition strip (name : string) : ProcessedImage.t :=
  ProcessedImage.mk name name name (Dimensions.mk 1 100).

Definition picture (name : string) (width height : float)
    : ProcessedImage.t :=
  ProcessedImage.mk name name name (Dimensions.mk width height).

(** The rectangle of an item with the name of its image. *)
Definition rectangle (item : MasonryItem.t)
    : string * float * float * float * float :=
  (ProcessedImage.id (MasonryItem.image item),
   MasonryItem.x item, MasonryItem.y item,
   MasonryItem.width item, MasonryItem.height item).

End Binary64.

(** ** The selection of the column *)

Lemma Math_min_lower_bound (xs : list Q) (m : Q) :
  Math_min xs = Some m -> forall j z, xs !! j = Some z -> m <= z.
Proof.
  revert m. induction xs as [|x rest IH]; intros m Hm j z Hz.
  - destruct j; discriminate.
  - simpl in Hm. destruct (Math_min rest) as [m'|] eqn:Hrest.
    + injection Hm as <-. destruct j as [|j]; simpl in Hz.
      * injection Hz as <-. apply Q.le_min_l.
      * eapply Qle_trans; [apply Q.le_min_r | exact (IH m' eq_refl j z Hz)].
    + injection Hm as <-. destruct rest as [|x' rest'].
      * destruct j as [|[|j]]; simpl in Hz; try discriminate.
        injection Hz as <-. apply Qle_refl.
      * simpl in Hrest. destruct (Math_min rest'); discriminate.
Qed.

Lemma Math_min_attained (xs : list Q) (m : Q) :
  Math_min xs = Some m -> exists j z, xs !! j = Some z /\ z == m.
Proof.
  revert m. induction xs as [|x rest IH]; intros m Hm; [discriminate|].
  simpl in Hm. destruct (Math_min rest) as [m'|] eqn:Hrest.
  - injection Hm as <-.
    destruct (Q.min_spec x m') as [[_ Heq]|[_ Heq]].
    + exists 0%nat, x. split; [reflexivity | symmetry; exact Heq].
    + destruct (IH m' eq_refl) as (j & z & Hz & Hzm).
      exists (S j), z. split; [exact Hz | rewrite Heq; exact Hzm].
  - injection Hm as <-. exists 0%nat, x. split; reflexivity.
Qed.

Lemma Math_min_nonempty (xs : list Q) :
  xs <> [] -> is_Some (Math_min xs).
Proof.
  destruct xs as [|x rest]; [congruence|]. intros _. simpl.
  destruct (Math_min rest); eauto.
Qed.

Lemma indexOf_first (xs : list Q) (v : Q) (i : nat) :
  indexOf xs v = Some i ->
  exists y, xs !! i = Some y /\ y == v
    /\ forall j z, (j < i)%nat -> xs !! j = Some z -> ~ z == v.
Proof.
  revert i. induction xs as [|x rest IH]; intros i Hi; [discriminate|].
  simpl in Hi. destruct (Qeq_bool x v) eqn:Hxv.
  - injection Hi as <-. exists x. split; [reflexivity|].
    split; [apply Qeq_bool_eq; exact Hxv | intros j z Hj; lia].
  - destruct (indexOf rest v) as [i'|] eqn:Hrest; [|discriminate].
    injection Hi as <-. destruct (IH i' eq_refl) as (y & Hy & Hyv & Hbefore).
    exists y. split; [exact Hy|]. split; [exact Hyv|].
    intros [|j] z Hj Hz; simpl in Hz.
    + injection Hz as <-. intros Heq.
      apply Qeq_eq_bool in Heq. congruence.
    + apply (Hbefore j z); [lia | exact Hz].
Qed.

Lemma indexOf_found (xs : list Q) (v : Q) (j : nat) (z : Q) :
  xs !! j = Some z -> z == v -> is_Some (indexOf xs v).
Proof.
  revert j. induction xs as [|x rest IH]; intros j Hz Hzv.
  - destruct j; discriminate.
  - simpl. destruct (Qeq_bool x v) eqn:Hxv; [eauto|].
    destruct j as [|j]; simpl in Hz.
    + injection Hz as ->. apply Qeq_eq_bool in Hzv. congruence.
    + destruct (IH j Hz Hzv) as [i ->]. simpl. eauto.
Qed.

Lemma shortestColumnIndex_firstShortest (heights : list Q) (i : nat) :
  shortestColumnIndex heights = Some i ->
  exists y, firstShortest heights i y.
Proof.
  unfold shortestColumnIndex.
  destruct (Math_min heights) as [m|] eqn:Hm; [|discriminate].
  intros Hi. destruct (indexOf_first _ _ _ Hi) as (y & Hy & Hym & Hbefore).
  exists y. split; [exact Hy|]. split.
  - intros j z Hz. rewrite Hym. exact (Math_min_lower_bound _ _ Hm j z Hz).
  - intros j z Hj Hz. rewrite Hym.
    pose proof (Math_min_lower_bound _ _ Hm j z Hz) as Hle.
    pose proof (Hbefore j z Hj Hz) as Hne.
    apply Qle_lteq in Hle. destruct Hle as [Hlt|Heq]; [exact Hlt|].
    exfalso. apply Hne. symmetry. exact Heq.
Qed.

Lemma shortestColumnIndex_nonempty (heights : list Q) :
  heights <> [] -> is_Some (shortestColumnIndex heights).
Proof.
  intros Hne. unfold shortestColumnIndex.
  destruct (Math_min_nonempty heights Hne) as [m Hm]. rewrite Hm.
  destruct (Math_min_attained _ _ Hm) as (j & z & Hz & Hzm).
  exact (indexOf_found _ _ _ _ Hz Hzm).
Qed.

(** ** One turn of the loop, and the loop *)

Section Loop.
Variables (bannerWidth bannerHeight : Q) (columns : nat) (gap : Q).

Local Abbreviation place' := (place bannerWidth bannerHeight columns gap).
Local Abbreviation run' := (run bannerWidth bannerHeight columns gap).
Local Abbreviation height' := (placedHeight bannerWidth columns gap).
Local Abbreviation item' := (placedItem bannerWidth columns gap).
Local Abbreviation placedIn' := (placedIn bannerWidth columns gap).

Lemma place_selected (st : LoopState) (image : ProcessedImage.t) (i : nat)
    (y : Q) :
  shortestColumnIndex (columnHeights st) = Some i ->
  columnHeights st !! i = Some y ->
  place' st image =
    if Qle_bool (y + height' image) (bannerHeight - gap)
    then placedIn' st image i y else st.
Proof. intros Hi Hy. unfold place. rewrite Hi, Hy. reflexivity. Qed.

Lemma place_cases (st : LoopState) (image : ProcessedImage.t) :
  place' st image = st
  \/ exists i y,
       firstShortest (columnHeights st) i y
       /\ y + height' image <= bannerHeight - gap
       /\ place' st image = placedIn' st image i y.
Proof.
  destruct (shortestColumnIndex (columnHeights st)) as [i|] eqn:Hi.
  - destruct (shortestColumnIndex_firstShortest _ _ Hi) as [y Hfirst].
    pose proof Hfirst as (Hy & _).
    rewrite (place_selected st image i y Hi Hy).
    destruct (Qle_bool _ _) eqn:Hfit; [right | left; reflexivity].
    exists i, y. apply Qle_bool_iff in Hfit. auto.
  - left. unfold place. rewrite Hi. reflexivity.
Qed.

Lemma run_app (pre post : list ProcessedImage.t) :
  run' (pre ++ post) = fold_left place' post (run' pre).
Proof. unfold run. apply fold_left_app. Qed.

Lemma run_snoc (pre : list ProcessedImage.t) (image : ProcessedImage.t) :
  run' (pre ++ [image]) = place' (run' pre) image.
Proof. rewrite run_app. reflexivity. Qed.

(** A property of the initial state that every turn preserves holds
    after the loop. *)
Lemma run_invariant (P : LoopState -> Prop)
    (images : list ProcessedImage.t) :
  P (initial columns gap) ->
  (forall st image, image ∈ images -> P st -> P (place' st image)) ->
  P (run' images).
Proof.
  unfold run. generalize (initial columns gap).
  induction images as [|image rest IH]; intros st Hst Hstep; [exact Hst|].
  simpl. apply IH.
  - apply Hstep; [left | exact Hst].
  - intros st' image' Hin. apply Hstep. right. exact Hin.
Qed.

End Loop.


(** ** What the layout returns *)

Section Placements.
Variables (bannerWidth bannerHeight : Q) (columns : nat) (gap : Q).

Local Abbreviation place' := (place bannerWidth bannerHeight columns gap).
Local Abbreviation run' := (run bannerWidth bannerHeight columns gap).
Local Abbreviation height' := (placedHeight bannerWidth columns gap).
Local Abbreviation item' := (placedItem bannerWidth columns gap).
Local Abbreviation placedIn' := (placedIn bannerWidth columns gap).
Local Abbreviation width' := (columnWidth bannerWidth columns gap).
Local Abbreviation X' := (columnX bannerWidth columns gap).

(** Every recorded item is the item of an input image, in one of the
    columns, at a height from which it fits. *)
Lemma run_items_shape (images : list ProcessedImage.t)
    (item : MasonryItem.t) :
  item ∈ items (run' images) ->
  exists image c y,
    image ∈ images /\ (c < columns)%nat /\ item = item' image c y
    /\ y + height' image <= bannerHeight - gap.
Proof.
  cut (length (columnHeights (run' images)) = columns
       /\ forall item, item ∈ items (run' images) ->
          exists image c y,
            image ∈ images /\ (c < columns)%nat /\ item = item' image c y
            /\ y + height' image <= bannerHeight - gap).
  { intros [_ H]. apply H. }
  clear item.
  apply (run_invariant bannerWidth bannerHeight columns gap
    (fun st => length (columnHeights st) = columns
       /\ forall item, item ∈ items st ->
          exists image c y,
            image ∈ images /\ (c < columns)%nat /\ item = item' image c y
            /\ y + height' image <= bannerHeight - gap)).
  - split; [apply length_replicate|]. intros item Hin. inversion Hin.
  - intros st image Himage [Hlen Hitems].
    destruct (place_cases bannerWidth bannerHeight columns gap st image)
      as [->|(i & y & (Hy & _) & Hfit & ->)]; [auto|].
    split; [simpl; rewrite length_insert; exact Hlen|].
    intros item Hin. simpl in Hin. apply elem_of_app in Hin.
    destruct Hin as [Hin|Hin]; [auto|].
    apply list_elem_of_singleton in Hin. subst item.
    exists image, i, y. split; [exact Himage|].
    split; [rewrite <- Hlen; eapply lookup_lt_Some; exact Hy|]. auto.
Qed.

(** C9: for images of positive dimensions and a column width other than
    zero, the width of every returned item over its height is the original
    width of its image over the original height. *)
Theorem placement_keeps_aspect_ratio (images : list ProcessedImage.t)
    (item : MasonryItem.t) :
  Forall positiveDimensions images ->
  ~ columnWidth bannerWidth columns gap == 0 ->
  item ∈ calculateMasonryLayout images bannerWidth bannerHeight columns gap ->
  MasonryItem.width item / MasonryItem.height item
  == Dimensions.width (ProcessedImage.originalDimensions
                         (MasonryItem.image item))
     / Dimensions.height (ProcessedImage.originalDimensions
                            (MasonryItem.image item)).
Proof.
  intros Hpositive Hwidth Hin.
  destruct (run_items_shape images item Hin)
    as (image & c & y & Himage & _ & -> & _).
  rewrite Forall_forall in Hpositive.
  destruct (Hpositive image Himage) as [Hw Hh].
  simpl. unfold placedHeight. field.
  repeat split; first [exact Hwidth | lra].
Qed.

(** *** Within the canvas *)

Lemma of_nat_nonneg (n : nat) : 0 <= of_nat n.
Proof.
  unfold of_nat. change 0 with (inject_Z 0). rewrite <- Zle_Qle. lia.
Qed.

Lemma of_nat_lt (c n : nat) : (c < n)%nat -> of_nat c + 1 <= of_nat n.
Proof.
  intros Hlt. unfold of_nat. change 1 with (inject_Z 1).
  rewrite <- inject_Z_plus, <- Zle_Qle. lia.
Qed.

(** The columns and the gaps around them fill the width of the banner. *)
Lemma columnWidth_columns :
  (1 <= columns)%nat ->
  width' * of_nat columns == bannerWidth - gap * (of_nat columns + 1).
Proof.
  intros Hcolumns. unfold columnWidth. field.
  pose proof (of_nat_lt 0 columns Hcolumns) as H.
  change (of_nat 0) with 0 in H. intros Hzero. lra.
Qed.

Lemma columnWidth_nonneg :
  (1 <= columns)%nat ->
  gap * (of_nat columns + 1) <= bannerWidth -> 0 <= width'.
Proof.
  intros Hcolumns Hwide.
  pose proof (columnWidth_columns Hcolumns) as Htimes.
  pose proof (of_nat_lt 0 columns Hcolumns) as H.
  change (of_nat 0) with 0 in H. nra.
Qed.

Lemma aspectRatio_pos (image : ProcessedImage.t) :
  positiveDimensions image ->
  0 < Dimensions.width (ProcessedImage.originalDimensions image)
      / Dimensions.height (ProcessedImage.originalDimensions image).
Proof.
  intros [Hw Hh]. apply Qlt_shift_div_l; [exact Hh | lra].
Qed.

Lemma placedHeight_nonneg (image : ProcessedImage.t) :
  positiveDimensions image -> 0 <= width' -> 0 <= height' image.
Proof.
  intros Hpositive Hwidth. unfold placedHeight.
  apply Qle_shift_div_l; [apply aspectRatio_pos; exact Hpositive | lra].
Qed.

(** With column width and gap not negative no column is ever filled to
    less than [gap], and no item starts above [gap]. *)
Lemma run_heights_from_gap (images : list ProcessedImage.t) :
  Forall positiveDimensions images -> 0 <= width' -> 0 <= gap ->
  (forall c h, columnHeights (run' images) !! c = Some h -> gap <= h)
  /\ (forall item, item ∈ items (run' images) -> gap <= MasonryItem.y item).
Proof.
  intros Hpositive Hwidth Hgap. rewrite Forall_forall in Hpositive.
  apply (run_invariant bannerWidth bannerHeight columns gap
    (fun st =>
       (forall c h, columnHeights st !! c = Some h -> gap <= h)
       /\ (forall item, item ∈ items st -> gap <= MasonryItem.y item))).
  - split.
    + intros c h Hc. apply lookup_replicate in Hc. destruct Hc as [-> _].
      apply Qle_refl.
    + intros item Hin. inversion Hin.
  - intros st image Himage [Hheights Hitems].
    destruct (place_cases bannerWidth bannerHeight columns gap st image)
      as [->|(i & y & (Hy & _) & Hfit & ->)]; [auto|].
    pose proof (Hheights i y Hy) as Hlow.
    pose proof (placedHeight_nonneg image (Hpositive image Himage) Hwidth)
      as Hheight.
    split; simpl.
    + intros c h Hc. destruct (decide (c = i)) as [->|Hne].
      * rewrite list_lookup_insert_eq in Hc
          by (eapply lookup_lt_Some; exact Hy).
        injection Hc as <-. lra.
      * rewrite list_lookup_insert_ne in Hc by congruence. eauto.
    + intros item Hin. apply elem_of_app in Hin.
      destruct Hin as [Hin|Hin]; [auto|].
      apply list_elem_of_singleton in Hin. subst item. exact Hlow.
Qed.

End Placements.

(** ** The conversion to pixels *)

Lemma calculatePixelDimensions_bannerPixels (config : PrintConfig.t) :
  calculatePixelDimensions config = bannerPixels config.
Proof. reflexivity. Qed.

(** ** The failures of [generateBanner] *)

(** The drawing loop never throws: an image that does not load is
    reported to the console and the loop goes on. *)
Lemma drawItems_succeeds (browser : Browser) (totalItems i : nat)
    (layout : list MasonryItem.t) :
  exists trace, drawItems browser totalItems i layout = (trace, inr tt).
Proof.
  revert i. induction layout as [|item rest IH]; intros i; simpl.
  - eexists. reflexivity.
  - destruct (IH (S i)) as [trace Hrest]. rewrite Hrest.
    unfold drawItem. destruct (loadImage browser _); eexists; reflexivity.
Qed.

(** With an image and a size within the limit the run reaches the layout
    (the progress 10 is reported just before it), and when it fails it
    fails for another reason than its size. *)
Lemma generateBanner_reaches_layout (browser : Browser)
    (images : list ProcessedImage.t) (config : PrintConfig.t) :
  images <> [] ->
  (fst (bannerPixels config) <= maxDimension)%Z ->
  (snd (bannerPixels config) <= maxDimension)%Z ->
  exists trace result,
    generateBanner browser images config
    = (onProgress 5 :: onProgress 10 :: trace, result)
    /\ forall limit width height,
         result <> inl (DimensionsTooLarge limit width height).
Proof.
  intros Himages Hwidth Hheight. unfold generateBanner.
  destruct images as [|image rest]; [congruence|].
  destruct (bannerPixels config) as [bannerWidth bannerHeight].
  simpl in Hwidth, Hheight.
  replace (bannerWidth >? maxDimension)%Z with false by lia.
  replace (bannerHeight >? maxDimension)%Z with false by lia.
  simpl length at 1. simpl orb. cbv iota.
  set (layout := calculateMasonryLayout _ _ _ _ _).
  destruct (drawItems_succeeds browser (length layout) 0 layout)
    as [drawn Hdrawn].
  destruct (length layout =? 0)%nat;
    [eexists _, _; split; [reflexivity | discriminate]|].
  destruct (getContext browser);
    [|eexists _, _; split; [reflexivity | discriminate]].
  unfold mbind, M_bind, emit, throw, mret, M_ret. rewrite Hdrawn.
  destruct (canvasToBlob browser);
    eexists _, _; (split; [reflexivity | discriminate]).
Qed.

(** With an image and a size beyond the limit the run ends at the check
    of the size, whatever the images are. *)
Lemma generateBanner_too_large (browser : Browser)
    (images : list ProcessedImage.t) (config : PrintConfig.t) :
  images <> [] ->
  (maxDimension < fst (bannerPixels config)
   \/ maxDimension < snd (bannerPixels config))%Z ->
  generateBanner browser images config
  = ([onProgress 5],
     inl (DimensionsTooLarge maxDimension (fst (bannerPixels config))
            (snd (bannerPixels config)))).
Proof.
  intros Himages Hlarge. unfold generateBanner.
  destruct images as [|image rest]; [congruence|].
  destruct (bannerPixels config) as [bannerWidth bannerHeight].
  simpl in Hlarge |- *.
  replace ((bannerWidth >? maxDimension)%Z || (bannerHeight >? maxDimension)%Z)
    with true by (symmetry; apply orb_true_iff; lia).
  reflexivity.
Qed.

(** C10: without an image the run fails at once with the error
    [No images to generate banner], whatever the size and the browser:
    nothing is reported, converted, laid out or drawn before. *)
Theorem generateBanner_without_images (browser : Browser)
    (config : PrintConfig.t) :
  generateBanner browser [] config = ([], inl NoImages)
  /\ message NoImages = "No images to generate banner"%string.
Proof. split; reflexivity. Qed.

(** C5, as amended: for at least one image, a size whose width or height
    in pixels exceeds 16000 makes the run fail with the error of too
    large dimensions after the progress 5 and before the layout, whatever
    the images are; a size within 16000 never yields that error. *)
Theorem generateBanner_checks_size_before_layout (browser : Browser)
    (images : list ProcessedImage.t) (config : PrintConfig.t) :
  images <> [] ->
  ((16000 < fst (bannerPixels config)
    \/ 16000 < snd (bannerPixels config))%Z ->
   generateBanner browser images config
   = ([onProgress 5],
      inl (DimensionsTooLarge 16000 (fst (bannerPixels config))
             (snd (bannerPixels config)))))
  /\ ((fst (bannerPixels config) <= 16000)%Z ->
      (snd (bannerPixels config) <= 16000)%Z ->
      forall trace limit width height,
        generateBanner browser images config
        <> (trace, inl (DimensionsTooLarge limit width height))).
Proof.
  intros Himages. split.
  - apply generateBanner_too_large. exact Himages.
  - intros Hwidth Hheight trace limit width height Hfail.
    destruct (generateBanner_reaches_layout browser images config Himages
                Hwidth Hheight) as (trace' & result & Hrun & Hother).
    rewrite Hrun in Hfail. injection Hfail as _ Hresult.
    exact (Hother _ _ _ Hresult).
Qed.

(** C4, as amended: the conversion to pixels fails for no size; a size
    with a width or a height that is not positive, or in inches or
    centimeters with a dpi that is not positive, is converted like any
    other, and with at least one image the run goes on to the check of
    the size: beyond 16000 it fails there, with the error of too large
    dimensions, and within 16000 it goes on to the layout. *)
Theorem generateBanner_accepts_invalid_dimension (browser : Browser)
    (images : list ProcessedImage.t) (config : PrintConfig.t) :
  images <> [] ->
  invalidDimension config ->
  ((16000 < fst (bannerPixels config)
    \/ 16000 < snd (bannerPixels config))%Z ->
   generateBanner browser images config
   = ([onProgress 5],
      inl (DimensionsTooLarge 16000 (fst (bannerPixels config))
             (snd (bannerPixels config)))))
  /\ ((fst (bannerPixels config) <= 16000)%Z ->
      (snd (bannerPixels config) <= 16000)%Z ->
      exists trace result,
        generateBanner browser images config
        = (onProgress 5 :: onProgress 10 :: trace, result)).
Proof.
  intros Himages _. split.
  - apply generateBanner_too_large. exact Himages.
  - intros Hwidth Hheight.
    destruct (generateBanner_reaches_layout browser images config Himages
                Hwidth Hheight) as (trace & result & Hrun & _).
    eauto.
Qed.

(** ** The order and the sums of binary64 numbers *)

(** The laws of [<=], [<] and [===] the selection relies on, and the sums
    that are not [NaN], from the specification of the operations
    ([SpecFloat]). *)

Section Numbers64.
Local Open Scope float_scope.

(** The comparison has no answer exactly on [NaN]. *)
Lemma SFcompare_nan (x y : spec_float) :
  SFcompare x y = None <-> x = S754_nan \/ y = S754_nan.
Proof.
  destruct x as [[]|[]| |[] mx ex], y as [[]|[]| |[] my ey]; simpl;
    split; intros H; try discriminate; auto;
    destruct H; discriminate.
Qed.

Lemma SFcompare_antisym (x y : spec_float) (c : comparison) :
  SFcompare x y = Some c -> SFcompare y x = Some (CompOpp c).
Proof.
  change (Pos.compare_cont Eq) with Pos.compare in *.
  destruct x as [[]|[]| |[] mx ex], y as [[]|[]| |[] my ey]; simpl;
    change (Pos.compare_cont Eq) with Pos.compare;
    intros H; inversion H; subst; clear H; try reflexivity;
    rewrite (Z.compare_antisym ex ey), (Pos.compare_antisym mx my);
    destruct (ex ?= ey)%Z, (mx ?= my)%positive; reflexivity.
Qed.

Lemma SFcompare_refl (x : spec_float) :
  x <> S754_nan -> SFcompare x x = Some Eq.
Proof.
  destruct x as [[]|[]| |[] mx ex]; simpl; intros H; try reflexivity;
    try congruence;
    change (Pos.compare_cont Eq) with Pos.compare;
    rewrite Z.compare_refl, Pos.compare_refl; reflexivity.
Qed.

Ltac decided := intros; (reflexivity || discriminate).

(** [<=] is transitive: on finite numbers of one sign it is the order of
    the pairs of exponent and mantissa. *)
Lemma SFleb_trans (x y z : spec_float) :
  SFleb x y = true -> SFleb y z = true -> SFleb x z = true.
Proof.
  unfold SFleb.
  destruct x as [[]|[]| |[] mx ex], y as [[]|[]| |[] my ey],
    z as [[]|[]| |[] mz ez]; simpl; try decided;
    change (Pos.compare_cont Eq) with Pos.compare;
    destruct (Z.compare_spec ex ey), (Z.compare_spec ey ez),
      (Z.compare_spec ex ez); try lia; try decided;
    destruct (Pos.compare_spec mx my), (Pos.compare_spec my mz),
      (Pos.compare_spec mx mz); simpl; try lia; try decided.
Qed.

Lemma SFleb_antisym (x y : spec_float) :
  SFleb x y = true -> SFleb y x = true -> SFeqb x y = true.
Proof.
  unfold SFleb, SFeqb.
  destruct (SFcompare x y) as [c|] eqn:Hc; [|discriminate].
  rewrite (SFcompare_antisym _ _ _ Hc).
  destruct c; simpl; intros; congruence.
Qed.

(** Rounding a mantissa that is not negative never answers [NaN]. *)
Lemma shr_1_nonneg (mrs : shr_record) :
  (0 <= shr_m mrs)%Z -> (0 <= shr_m (shr_1 mrs))%Z.
Proof.
  destruct mrs as [[|[p|p|]|p] r s]; simpl; lia.
Qed.

Lemma iter_shr_1_nonneg (p : positive) (mrs : shr_record) :
  (0 <= shr_m mrs)%Z -> (0 <= shr_m (SpecFloat.iter_pos shr_1 p mrs))%Z.
Proof.
  revert mrs. induction p as [p IH|p IH|]; intros mrs H; simpl.
  - apply IH, IH, shr_1_nonneg, H.
  - apply IH, IH, H.
  - apply shr_1_nonneg, H.
Qed.

Lemma shr_fexp_nonneg (prec emax m e : Z) (l : location) :
  (0 <= m)%Z -> (0 <= shr_m (fst (shr_fexp prec emax m e l)))%Z.
Proof.
  intros H. unfold shr_fexp, shr.
  assert (0 <= shr_m (shr_record_of_loc m l))%Z as H0
    by (destruct l as [|[]]; exact H).
  destruct (fexp prec emax (Zdigits2 m + e) - e)%Z; simpl; auto.
  apply iter_shr_1_nonneg, H0.
Qed.

Lemma round_nearest_even_nonneg (m : Z) (l : location) :
  (0 <= m)%Z -> (0 <= round_nearest_even m l)%Z.
Proof.
  intros H. destruct l as [|[]]; simpl; try lia.
  destruct (Z.even m); lia.
Qed.

Lemma binary_round_aux_not_nan (prec emax : Z) (sx : bool) (mx ex : Z)
    (lx : location) :
  (0 <= mx)%Z -> binary_round_aux prec emax sx mx ex lx <> S754_nan.
Proof.
  intros H. unfold binary_round_aux.
  pose proof (shr_fexp_nonneg prec emax mx ex lx H) as H1.
  destruct (shr_fexp prec emax mx ex lx) as [mrs' e']. simpl in H1.
  pose proof (shr_fexp_nonneg prec emax _ e' loc_Exact
    (round_nearest_even_nonneg _ (loc_of_shr_record mrs') H1)) as H2.
  destruct (shr_fexp prec emax _ e' loc_Exact) as [mrs'' e'']. simpl in H2.
  destruct (shr_m mrs'') as [|m|m]; [discriminate| |lia].
  destruct (e'' <=? emax - prec)%Z; discriminate.
Qed.

Lemma binary_normalize_not_nan (prec emax m e : Z) (szero : bool) :
  binary_normalize prec emax m e szero <> S754_nan.
Proof.
  unfold binary_normalize, binary_round.
  destruct m as [|m|m]; [discriminate| |];
    destruct (shl_align _ _ _) as [mz ez];
    apply binary_round_aux_not_nan; lia.
Qed.

Lemma SFadd_not_nan (x y : spec_float) :
  x <> S754_nan -> SFfinite y -> SF64add x y <> S754_nan.
Proof.
  unfold SF64add, SFadd.
  destruct x as [[]|[]| |sx mx ex], y as [[]|[]| |sy my ey]; simpl;
    intros Hx Hy; try discriminate; try contradiction;
    apply binary_normalize_not_nan.
Qed.

Lemma SFsub_not_nan (x y : spec_float) :
  x <> S754_nan -> SFfinite y -> SF64sub x y <> S754_nan.
Proof.
  unfold SF64sub, SFsub.
  destruct x as [[]|[]| |sx mx ex], y as [[]|[]| |sy my ey]; simpl;
    intros Hx Hy; try discriminate; try contradiction;
    apply binary_normalize_not_nan.
Qed.

(** The same laws of the numbers themselves. *)

Lemma is_nan_spec (x : float) : is_nan x = true <-> Prim2SF x = S754_nan.
Proof.
  unfold is_nan. rewrite FloatAxioms.eqb_spec. unfold SFeqb.
  destruct (Prim2SF x) as [[]|[]| |[] mx ex] eqn:E; simpl;
    change (Pos.compare_cont Eq) with Pos.compare;
    rewrite ?Z.compare_refl, ?Pos.compare_refl; simpl;
    split; intros H; congruence.
Qed.

Lemma is_nan_false (x : float) : is_nan x = false <-> Prim2SF x <> S754_nan.
Proof.
  rewrite <- is_nan_spec. destruct (is_nan x); split; congruence.
Qed.

Lemma is_finite_spec (x : float) : is_finite x = true <-> SFfinite (Prim2SF x).
Proof.
  unfold is_finite, is_nan, is_infinity.
  rewrite !FloatAxioms.eqb_spec, FloatAxioms.abs_spec. unfold SFeqb.
  destruct (Prim2SF x) as [[]|[]| |[] mx ex] eqn:E; simpl;
    change (Pos.compare_cont Eq) with Pos.compare;
    rewrite ?Z.compare_refl, ?Pos.compare_refl; simpl;
    split; intros H; try congruence; try contradiction; try exact I.
Qed.

Lemma is_finite_not_nan (x : float) : is_finite x = true -> is_nan x = false.
Proof.
  unfold is_finite. destruct (is_nan x); [discriminate|reflexivity].
Qed.

(** A sum or a difference with a finite number is [NaN] only when the
    other number is. *)
Lemma float_add_not_nan (x y : float) :
  is_nan x = false -> is_finite y = true -> is_nan (x + y) = false.
Proof.
  rewrite !is_nan_false, is_finite_spec, FloatAxioms.add_spec.
  apply SFadd_not_nan.
Qed.

Lemma float_sub_not_nan (x y : float) :
  is_nan x = false -> is_finite y = true -> is_nan (x - y) = false.
Proof.
  rewrite !is_nan_false, is_finite_spec, FloatAxioms.sub_spec.
  apply SFsub_not_nan.
Qed.

(** [<=] holds of no [NaN]. *)
Lemma float_leb_not_nan (x y : float) :
  (x <=? y) = true -> is_nan x = false /\ is_nan y = false.
Proof.
  rewrite FloatAxioms.leb_spec, !is_nan_false. unfold SFleb.
  destruct (SFcompare _ _) eqn:E; [|discriminate].
  intros _. split; intros H; rewrite H in E;
    [|destruct (Prim2SF x)]; discriminate.
Qed.

Lemma float_leb_refl (x : float) : is_nan x = false -> (x <=? x) = true.
Proof.
  rewrite is_nan_false, FloatAxioms.leb_spec. intros H. unfold SFleb.
  rewrite (SFcompare_refl _ H). reflexivity.
Qed.

Lemma float_leb_trans (x y z : float) :
  (x <=? y) = true -> (y <=? z) = true -> (x <=? z) = true.
Proof. rewrite !FloatAxioms.leb_spec. apply SFleb_trans. Qed.

Lemma float_compare_cases (x y : float) :
  is_nan x = false -> is_nan y = false ->
  exists c, SFcompare (Prim2SF x) (Prim2SF y) = Some c.
Proof.
  rewrite !is_nan_false. intros Hx Hy.
  destruct (SFcompare _ _) as [c|] eqn:E; [eauto|].
  apply SFcompare_nan in E. tauto.
Qed.

(** On numbers that are not [NaN] the order is total: [<=] fails
    exactly when [>] holds. *)
Lemma float_leb_false_ltb (x y : float) :
  is_nan x = false -> is_nan y = false ->
  (x <=? y) = false <-> (y <? x) = true.
Proof.
  intros Hx Hy. destruct (float_compare_cases x y Hx Hy) as [c Hc].
  rewrite FloatAxioms.leb_spec, FloatAxioms.ltb_spec. unfold SFleb, SFltb.
  rewrite Hc, (SFcompare_antisym _ _ _ Hc).
  destruct c; simpl; split; congruence.
Qed.

Lemma float_ltb_leb (x y : float) : (x <? y) = true -> (x <=? y) = true.
Proof.
  rewrite FloatAxioms.leb_spec, FloatAxioms.ltb_spec. unfold SFleb, SFltb.
  destruct (SFcompare _ _) as [[]|]; congruence.
Qed.

Lemma float_ltb_not_leb (x y : float) : (x <? y) = true -> (y <=? x) = false.
Proof.
  rewrite FloatAxioms.leb_spec, FloatAxioms.ltb_spec. unfold SFleb, SFltb.
  destruct (SFcompare (Prim2SF x) _) as [c|] eqn:Hc; [|discriminate].
  rewrite (SFcompare_antisym _ _ _ Hc). destruct c; simpl; congruence.
Qed.

Lemma float_eqb_leb (x y : float) :
  (x =? y) = true -> (x <=? y) = true /\ (y <=? x) = true.
Proof.
  rewrite !FloatAxioms.leb_spec, FloatAxioms.eqb_spec. unfold SFleb, SFeqb.
  destruct (SFcompare (Prim2SF x) _) as [c|] eqn:Hc; [|discriminate].
  rewrite (SFcompare_antisym _ _ _ Hc). destruct c; simpl; auto; discriminate.
Qed.

Lemma float_leb_antisym (x y : float) :
  (x <=? y) = true -> (y <=? x) = true -> (x =? y) = true.
Proof.
  rewrite !FloatAxioms.leb_spec, FloatAxioms.eqb_spec. apply SFleb_antisym.
Qed.

Lemma float_leb_neq_ltb (x y : float) :
  (x <=? y) = true -> (y =? x) = false -> (x <? y) = true.
Proof.
  rewrite FloatAxioms.leb_spec, FloatAxioms.eqb_spec, FloatAxioms.ltb_spec.
  unfold SFleb, SFeqb, SFltb.
  destruct (SFcompare (Prim2SF x) _) as [c|] eqn:Hc; [|discriminate].
  rewrite (SFcompare_antisym _ _ _ Hc). destruct c; simpl; congruence.
Qed.

Lemma float_leb_ltb_trans (x y z : float) :
  (x <=? y) = true -> (y <? z) = true -> (x <? z) = true.
Proof.
  intros Hxy Hyz.
  destruct (float_leb_not_nan _ _ Hxy) as [Hx _].
  destruct (float_leb_not_nan _ _ (float_ltb_leb _ _ Hyz)) as [_ Hz].
  apply (float_leb_false_ltb z x Hz Hx).
  destruct (z <=? x) eqn:Hzx; [|reflexivity].
  pose proof (float_leb_trans _ _ _ Hzx Hxy).
  pose proof (float_ltb_not_leb _ _ Hyz). congruence.
Qed.

Lemma float_leb_infinity (x : float) :
  is_nan x = false -> (x <=? infinity) = true.
Proof.
  rewrite is_nan_false, FloatAxioms.leb_spec. unfold SFleb.
  change (Prim2SF infinity) with (S754_infinity false).
  destruct (Prim2SF x) as [[]|[]| |[] mx ex]; simpl; congruence.
Qed.

Lemma float_add_nan_l (x y : float) : is_nan x = true -> is_nan (x + y) = true.
Proof.
  rewrite !is_nan_spec, FloatAxioms.add_spec. intros ->. reflexivity.
Qed.

End Numbers64.

(** ** The selection of the column in binary64 *)

Section Selection64.
Import Binary64.
Local Open Scope float_scope.

(** [-0 <= +0]. *)
Lemma zeros_leb (x y : float) :
  isNegativeZero x = true -> isPositiveZero y = true -> (x <=? y) = true.
Proof.
  unfold isNegativeZero, isPositiveZero.
  rewrite !classify_spec, FloatAxioms.leb_spec.
  unfold SF64classify, SFclassify, SFleb.
  destruct (Prim2SF x) as [[]|[]| |[] mx ex]; try discriminate;
    try (destruct (_ =? _)%Z; discriminate);
    destruct (Prim2SF y) as [[]|[]| |[] my ey]; try discriminate;
    try (destruct (_ =? _)%Z; discriminate); reflexivity.
Qed.

(** The loop of [Math.min] answers a number that is [<=] the lowest it
    started from and [<=] every argument, and that is one of them. *)
Lemma lowestOf_least (xs : list float) (lowest : float) :
  is_nan lowest = false -> noNaN xs ->
  (lowestOf lowest xs <=? lowest) = true
  /\ Forall (fun z => (lowestOf lowest xs <=? z) = true) xs
  /\ (lowestOf lowest xs = lowest \/ lowestOf lowest xs ∈ xs).
Proof.
  revert lowest. induction xs as [|number rest IH]; intros lowest Hl Hxs.
  { simpl. split; [apply float_leb_refl, Hl|].
    split; [constructor | left; reflexivity]. }
  apply Forall_cons in Hxs as [Hn Hrest]. simpl. rewrite Hn.
  assert (forall m, (m <=? number) = true ->
            (number <=? lowest) = true -> (m <=? lowest) = true) as Hdown
    by (intros m; apply float_leb_trans).
  destruct (isNegativeZero number && isPositiveZero lowest) eqn:Hzeros;
    [|destruct (number <? lowest) eqn:Hlt].
  - apply andb_true_iff in Hzeros as [Hneg Hpos].
    destruct (IH number Hn Hrest) as (Hle & Hall & Hin).
    split; [apply (Hdown _ Hle), zeros_leb; assumption|].
    split; [constructor; assumption|].
    right. destruct Hin as [->|Hin]; [left | right; exact Hin].
  - destruct (IH number Hn Hrest) as (Hle & Hall & Hin).
    split; [apply (Hdown _ Hle), float_ltb_leb, Hlt|].
    split; [constructor; assumption|].
    right. destruct Hin as [->|Hin]; [left | right; exact Hin].
  - destruct (IH lowest Hl Hrest) as (Hle & Hall & Hin).
    split; [exact Hle|].
    split.
    + constructor; [|exact Hall].
      apply (float_leb_trans _ _ _ Hle).
      destruct (lowest <=? number) eqn:Hln; [reflexivity|].
      apply (float_leb_false_ltb _ _ Hl Hn) in Hln. congruence.
    + destruct Hin as [Heq|Hin]; [left; exact Heq | right; right; exact Hin].
Qed.

(** Of numbers none of which is [NaN], [Math.min] answers one that is
    [<=] every argument and [===] one of them. *)
Lemma Math_min64_least (xs : list float) :
  noNaN xs -> xs <> [] ->
  Forall (fun z => (Math_min xs <=? z) = true) xs
  /\ exists z, z ∈ xs /\ (z =? Math_min xs) = true.
Proof.
  intros Hxs Hne. unfold Math_min.
  destruct (lowestOf_least xs infinity eq_refl Hxs) as (Hle & Hall & Hin).
  split; [exact Hall|].
  destruct Hin as [Heq|Hin].
  - destruct xs as [|z rest]; [congruence|]. exists z. split; [left|].
    apply Forall_cons in Hall as [Hz _]. apply Forall_cons in Hxs as [Hnz _].
    apply float_leb_antisym; [|exact Hz].
    rewrite Heq. apply float_leb_infinity, Hnz.
  - exists (lowestOf infinity xs). split; [exact Hin|].
    apply float_leb_antisym; apply float_leb_refl;
      apply (float_leb_not_nan _ _ Hle).
Qed.

Lemma indexOf64_first (xs : list float) (v : float) (i : nat) :
  indexOf xs v = Some i ->
  exists y, xs !! i = Some y /\ (y =? v) = true
    /\ forall j z, (j < i)%nat -> xs !! j = Some z -> (z =? v) = false.
Proof.
  revert i. induction xs as [|x rest IH]; intros i Hi; [discriminate|].
  simpl in Hi. destruct (x =? v) eqn:Hxv.
  - injection Hi as <-. exists x. split; [reflexivity|]. split; [exact Hxv|].
    intros j z Hj. lia.
  - destruct (indexOf rest v) as [k|] eqn:Hk; [|discriminate].
    injection Hi as <-. destruct (IH k eq_refl) as (y & Hy & Hyv & Hbefore).
    exists y. split; [exact Hy|]. split; [exact Hyv|].
    intros [|j] z Hj Hz; simpl in Hz; [congruence|].
    apply (Hbefore j z); [lia | exact Hz].
Qed.

Lemma indexOf64_found (xs : list float) (v z : float) :
  z ∈ xs -> (z =? v) = true -> exists i, indexOf xs v = Some i.
Proof.
  induction xs as [|x rest IH]; intros Hin Hzv.
  { apply elem_of_nil in Hin. contradiction. }
  simpl. destruct (x =? v) eqn:Hxv; [eauto|].
  apply elem_of_cons in Hin as [->|Hin]; [congruence|].
  destruct (IH Hin Hzv) as [i ->]. simpl. eauto.
Qed.

(** The column selected is the first of the columns of least height. *)
Lemma shortestColumnIndex64_firstShortest (heights : list float) :
  noNaN heights -> heights <> [] ->
  exists i y,
    shortestColumnIndex heights = Some i /\ firstShortest heights i y.
Proof.
  intros Hnan Hne.
  destruct (Math_min64_least heights Hnan Hne) as (Hall & z & Hin & Hz).
  destruct (indexOf64_found _ _ _ Hin Hz) as [i Hi].
  destruct (indexOf64_first _ _ _ Hi) as (y & Hy & Hyv & Hbefore).
  exists i, y. split; [exact Hi|]. split; [exact Hy|].
  apply float_eqb_leb in Hyv as [Hym _].
  rewrite Forall_lookup in Hall.
  split.
  - intros j w Hw. apply (float_leb_trans _ _ _ Hym), (Hall j w Hw).
  - intros j w Hj Hw. apply (float_leb_ltb_trans _ _ _ Hym).
    apply float_leb_neq_ltb; [apply (Hall j w Hw) | apply (Hbefore j w Hj Hw)].
Qed.

End Selection64.

(** ** One turn of the loop, and the loop, in binary64 *)

Section Loop64.
Import Binary64.
Local Open Scope float_scope.
Variables (bannerWidth bannerHeight : float) (columns : nat) (gap : float).

Local Abbreviation place' := (place bannerWidth bannerHeight columns gap).
Local Abbreviation run' := (run bannerWidth bannerHeight columns gap).
Local Abbreviation height' := (placedHeight bannerWidth columns gap).
Local Abbreviation item' := (placedItem bannerWidth columns gap).
Local Abbreviation placedIn' := (placedIn bannerWidth columns gap).
Local Abbreviation layout' images :=
  (calculateMasonryLayout images bannerWidth bannerHeight columns gap).

Lemma place64_selected (st : LoopState) (image : ProcessedImage.t) (i : nat)
    (y : float) :
  shortestColumnIndex (columnHeights st) = Some i ->
  columnHeights st !! i = Some y ->
  place' st image =
    if y + height' image <=? bannerHeight - gap
    then placedIn' st image i y else st.
Proof. intros Hi Hy. unfold place. rewrite Hi, Hy. reflexivity. Qed.

Lemma place64_cases (st : LoopState) (image : ProcessedImage.t) :
  place' st image = st
  \/ exists i y,
       columnHeights st !! i = Some y
       /\ (y + height' image <=? bannerHeight - gap) = true
       /\ place' st image = placedIn' st image i y.
Proof.
  unfold place.
  destruct (shortestColumnIndex (columnHeights st)) as [i|];
    [|left; reflexivity].
  destruct (columnHeights st !! i) as [y|] eqn:Hy; [|left; reflexivity].
  fold (height' image).
  destruct (y + height' image <=? bannerHeight - gap) eqn:Hfit;
    [right | left; reflexivity].
  exists i, y. auto.
Qed.

Lemma run64_app (pre post : list ProcessedImage.t) :
  run' (pre ++ post) = fold_left place' post (run' pre).
Proof. unfold run. apply fold_left_app. Qed.

Lemma run64_snoc (pre : list ProcessedImage.t) (image : ProcessedImage.t) :
  run' (pre ++ [image]) = place' (run' pre) image.
Proof. rewrite run64_app. reflexivity. Qed.

Lemma layout64_cons_app (pre post : list ProcessedImage.t)
    (image : ProcessedImage.t) :
  layout' (pre ++ image :: post)
  = items (fold_left place' post (place' (run' pre) image)).
Proof.
  unfold calculateMasonryLayout.
  replace (pre ++ image :: post) with ((pre ++ [image]) ++ post)
    by (rewrite <- app_assoc; reflexivity).
  rewrite run64_app, run64_snoc. reflexivity.
Qed.

(** A turn leaves no [NaN] among the filled heights: the sum it stores
    has passed the test [<=]. *)
Lemma place64_columnsFilled (st : LoopState) (image : ProcessedImage.t) :
  is_finite gap = true ->
  columnsFilled columns st -> columnsFilled columns (place' st image).
Proof.
  intros Hgap [Hlen Hnan].
  destruct (place64_cases st image) as [->|(i & y & Hy & Hfit & ->)];
    [split; assumption|].
  split; simpl; [rewrite length_insert; exact Hlen|].
  apply Forall_insert; [exact Hnan|].
  apply float_add_not_nan; [|exact Hgap]. apply (float_leb_not_nan _ _ Hfit).
Qed.

Lemma fold64_columnsFilled (images : list ProcessedImage.t) (st : LoopState) :
  is_finite gap = true -> columnsFilled columns st ->
  columnsFilled columns (fold_left place' images st).
Proof.
  intros Hgap. revert st.
  induction images as [|image rest IH]; intros st Hst; [exact Hst|].
  simpl. apply IH, place64_columnsFilled; assumption.
Qed.

Lemma run64_columnsFilled (images : list ProcessedImage.t) :
  is_finite gap = true -> columnsFilled columns (run' images).
Proof.
  intros Hgap. apply fold64_columnsFilled; [exact Hgap|].
  split; simpl; [apply length_replicate|].
  apply Forall_replicate, is_finite_not_nan, Hgap.
Qed.

Lemma columnsFilled_selects (st : LoopState) :
  (1 <= columns)%nat -> columnsFilled columns st ->
  exists i y,
    shortestColumnIndex (columnHeights st) = Some i
    /\ firstShortest (columnHeights st) i y.
Proof.
  intros Hcolumns [Hlen Hnan].
  apply shortestColumnIndex64_firstShortest; [exact Hnan|].
  intros Hnil. rewrite Hnil in Hlen. simpl in Hlen. lia.
Qed.

(** The loop only appends items, of images in the order of the input. *)
Lemma fold64_items (images : list ProcessedImage.t) (st : LoopState) :
  exists added,
    items (fold_left place' images st) = items st ++ added
    /\ map MasonryItem.image added `sublist_of` images.
Proof.
  revert st. induction images as [|image rest IH]; intros st.
  { exists []. rewrite app_nil_r. split; [reflexivity | constructor]. }
  simpl. destruct (IH (place' st image)) as (added & -> & Hsub).
  destruct (place64_cases st image) as [->|(i & y & _ & _ & ->)].
  - exists added. split; [reflexivity|]. apply sublist_cons, Hsub.
  - exists (item' image i y :: added). simpl.
    split; [rewrite <- app_assoc; reflexivity|].
    apply sublist_skip, Hsub.
Qed.

(** C1: with at least one column and a finite gap the layout goes
    through the images in input order: the images of the items it returns
    are a subsequence of the input, and the image that comes after [pre]
    meets the state [pre] has left.  The column width is
    [(canvasWidth - gap * (columns + 1)) / columns]; every column starts
    filled up to [gap]; the image is assigned the first of the columns of
    least filled height, and is recorded there, at
    [x = gap + columnIndex * (columnWidth + gap)] and [y] the filled
    height of that column, exactly when the test of the loop holds. *)
Theorem layout_takes_first_shortest_column
    (pre : list ProcessedImage.t) (image : ProcessedImage.t)
    (post : list ProcessedImage.t) :
  (1 <= columns)%nat ->
  is_finite gap = true ->
  columnWidth bannerWidth columns gap
    = (bannerWidth - gap * (of_nat columns + 1)) / of_nat columns
  /\ columnHeights (run' []) = replicate columns gap
  /\ map MasonryItem.image (layout' (pre ++ image :: post))
       `sublist_of` pre ++ image :: post
  /\ layout' (pre ++ image :: post)
     = items (fold_left place' post (run' (pre ++ [image])))
  /\ exists i y,
       firstShortest (columnHeights (run' pre)) i y
       /\ run' (pre ++ [image])
          = if y + columnWidth bannerWidth columns gap
                   / (Dimensions.width (ProcessedImage.originalDimensions image)
                      / Dimensions.height
                          (ProcessedImage.originalDimensions image))
               <=? bannerHeight - gap
            then
              {| items := items (run' pre)
                   ++ [MasonryItem.mk image
                         (gap + of_nat i
                            * (columnWidth bannerWidth columns gap + gap))
                         y
                         (columnWidth bannerWidth columns gap)
                         (columnWidth bannerWidth columns gap
                          / (Dimensions.width
                               (ProcessedImage.originalDimensions image)
                             / Dimensions.height
                                 (ProcessedImage.originalDimensions image)))];
                 columnHeights :=
                   <[i := y + columnWidth bannerWidth columns gap
                            / (Dimensions.width
                                 (ProcessedImage.originalDimensions image)
                               / Dimensions.height
                                   (ProcessedImage.originalDimensions image))
                          + gap]>
                     (columnHeights (run' pre)) |}
            else run' pre.
Proof.
  intros Hcolumns Hgap. split; [reflexivity|]. split; [reflexivity|].
  split.
  { unfold calculateMasonryLayout, run.
    destruct (fold64_items (pre ++ image :: post) (initial columns gap))
      as (added & -> & Hsub). exact Hsub. }
  split; [rewrite run64_snoc; apply layout64_cons_app|].
  destruct (columnsFilled_selects (run' pre) Hcolumns
              (run64_columnsFilled pre Hgap)) as (i & y & Hi & Hfirst).
  exists i, y. split; [exact Hfirst|].
  rewrite run64_snoc. apply place64_selected; [exact Hi | apply Hfirst].
Qed.

(** C2: the image assigned the column [i] filled up to [y] is rejected
    when [y + placedHeight > canvasHeight - gap]: no item is recorded,
    every filled height stays as it was and the layout is the one of the
    list without the image, so no other column is tried; otherwise the
    item is recorded and the filled height of column [i] becomes
    [y + placedHeight + gap], the other columns keeping theirs.  The
    numbers are finite: on [NaN] both [>] and the [<=] of the loop are
    false. *)
Theorem place_rejects_or_advances
    (pre : list ProcessedImage.t) (image : ProcessedImage.t)
    (post : list ProcessedImage.t) :
  (1 <= columns)%nat ->
  is_finite gap = true ->
  is_finite bannerHeight = true ->
  is_finite (height' image) = true ->
  exists i y,
    firstShortest (columnHeights (run' pre)) i y
    /\ ((bannerHeight - gap <? y + height' image) = true ->
        items (run' (pre ++ [image])) = items (run' pre)
        /\ columnHeights (run' (pre ++ [image])) = columnHeights (run' pre)
        /\ layout' (pre ++ image :: post) = layout' (pre ++ post))
    /\ ((bannerHeight - gap <? y + height' image) = false ->
        items (run' (pre ++ [image]))
          = items (run' pre) ++ [item' image i y]
        /\ columnHeights (run' (pre ++ [image])) !! i
           = Some (y + height' image + gap)
        /\ forall j, j <> i ->
             columnHeights (run' (pre ++ [image])) !! j
             = columnHeights (run' pre) !! j).
Proof.
  intros Hcolumns Hgap Hheight Himage.
  pose proof (run64_columnsFilled pre Hgap) as Hfilled.
  destruct (columnsFilled_selects _ Hcolumns Hfilled)
    as (i & y & Hi & Hfirst).
  exists i, y. split; [exact Hfirst|].
  pose proof Hfirst as (Hy & _).
  pose proof (place64_selected (run' pre) image i y Hi Hy) as Hplace.
  assert (is_nan (y + height' image) = false) as Hsum.
  { apply float_add_not_nan; [|exact Himage].
    destruct Hfilled as [_ Hnan]. unfold noNaN in Hnan.
    rewrite Forall_lookup in Hnan.
    apply (Hnan i y Hy). }
  assert (is_nan (bannerHeight - gap) = false) as Hroom
    by (apply float_sub_not_nan; [apply is_finite_not_nan|]; assumption).
  split.
  - intros Hover.
    assert (place' (run' pre) image = run' pre) as Hsame
      by (rewrite Hplace, (float_ltb_not_leb _ _ Hover); reflexivity).
    rewrite run64_snoc, Hsame. split; [reflexivity|]. split; [reflexivity|].
    rewrite layout64_cons_app, Hsame.
    unfold calculateMasonryLayout. rewrite run64_app. reflexivity.
  - intros Hfits.
    assert (place' (run' pre) image = placedIn' (run' pre) image i y)
      as Hplaced.
    { rewrite Hplace.
      destruct (y + height' image <=? bannerHeight - gap) eqn:Hfit;
        [reflexivity|].
      apply (float_leb_false_ltb _ _ Hsum Hroom) in Hfit. congruence. }
    rewrite run64_snoc, Hplaced. simpl. split; [reflexivity|]. split.
    + apply list_lookup_insert_eq. eapply lookup_lt_Some. exact Hy.
    + intros j Hj. apply list_lookup_insert_ne. congruence.
Qed.

(** An image is rejected exactly when it is not placed. *)
Lemma rejectedFrom64_complement (images : list ProcessedImage.t)
    (st : LoopState) :
  (1 <= columns)%nat ->
  is_finite gap = true ->
  is_finite bannerHeight = true ->
  Forall (fun image => is_finite (height' image) = true) images ->
  columnsFilled columns st ->
  (length (items (fold_left place' images st))
   + rejectedFrom bannerWidth bannerHeight columns gap st images
   = length (items st) + length images)%nat.
Proof.
  intros Hcolumns Hgap Hheight Himages. revert st.
  induction Himages as [|image rest Himage _ IH]; intros st Hfilled;
    [simpl; lia|].
  simpl. rewrite Nat.add_assoc,
    (Nat.add_comm (length _) (if exceeds _ _ _ _ _ _ then _ else _)),
    <- Nat.add_assoc.
  rewrite (IH _ (place64_columnsFilled st image Hgap Hfilled)).
  destruct (columnsFilled_selects _ Hcolumns Hfilled)
    as (i & y & Hi & Hy & _).
  rewrite (place64_selected st image i y Hi Hy).
  unfold exceeds. rewrite Hi, Hy.
  assert (is_nan (y + height' image) = false) as Hsum.
  { apply float_add_not_nan; [|exact Himage].
    destruct Hfilled as [_ Hnan]. unfold noNaN in Hnan.
    rewrite Forall_lookup in Hnan.
    apply (Hnan i y Hy). }
  assert (is_nan (bannerHeight - gap) = false) as Hroom
    by (apply float_sub_not_nan; [apply is_finite_not_nan|]; assumption).
  destruct (y + height' image <=? bannerHeight - gap) eqn:Hfit.
  - destruct (bannerHeight - gap <? y + height' image) eqn:Hover.
    + apply float_ltb_not_leb in Hover. congruence.
    + simpl. rewrite length_app. simpl. lia.
  - apply (float_leb_false_ltb _ _ Hsum Hroom) in Hfit. rewrite Hfit. lia.
Qed.

(** C3 (amended): the layout returns its items only.  With at least one
    column, a finite gap, a finite banner height and images whose placed
    height is finite, the images whose height at the column selected for
    them exceeds [canvasHeight - gap] are as many as the images that are
    not among the items returned. *)
Theorem rejected_count_complements_layout
    (images : list ProcessedImage.t) :
  (1 <= columns)%nat ->
  is_finite gap = true ->
  is_finite bannerHeight = true ->
  Forall (fun image => is_finite (height' image) = true) images ->
  (length (layout' images)
   + rejectedCount images bannerWidth bannerHeight columns gap
   = length images)%nat.
Proof.
  intros Hcolumns Hgap Hheight Himages.
  apply (rejectedFrom64_complement images (initial columns gap));
    try assumption.
  split; simpl; [apply length_replicate|].
  apply Forall_replicate, is_finite_not_nan, Hgap.
Qed.

End Loop64.

Section Empty64.
Import Binary64.
Local Open Scope float_scope.
Variables (bannerWidth bannerHeight : float) (columns : nat) (gap : float).

Local Abbreviation place' := (place bannerWidth bannerHeight columns gap).
Local Abbreviation run' := (run bannerWidth bannerHeight columns gap).
Local Abbreviation height' := (placedHeight bannerWidth columns gap).
Local Abbreviation placedIn' := (placedIn bannerWidth columns gap).

(** A turn that meets the columns as they were before the loop. *)
Lemma place64_initial (st : LoopState) (image : ProcessedImage.t) :
  (1 <= columns)%nat ->
  columnHeights st = replicate columns gap ->
  if gap + height' image <=? bannerHeight - gap
  then exists i, place' st image = placedIn' st image i gap
  else place' st image = st.
Proof.
  intros Hcolumns Hheights.
  destruct (gap + height' image <=? bannerHeight - gap) eqn:Hfit.
  - assert (is_nan gap = false) as Hgap.
    { destruct (is_nan gap) eqn:Hnan; [|reflexivity].
      apply (float_add_nan_l gap (height' image)) in Hnan.
      destruct (float_leb_not_nan _ _ Hfit). congruence. }
    destruct (columnsFilled_selects columns st Hcolumns)
      as (i & y & Hi & Hy & _).
    { split; rewrite Hheights; [apply length_replicate|].
      apply Forall_replicate, Hgap. }
    pose proof Hy as Hy'. rewrite Hheights in Hy'.
    apply lookup_replicate in Hy' as [-> _].
    exists i. rewrite (place64_selected _ _ _ _ st image i gap Hi Hy), Hfit.
    reflexivity.
  - destruct (place64_cases bannerWidth bannerHeight columns gap st image)
      as [Hsame|(i & y & Hy & Hfit' & _)]; [exact Hsame|].
    rewrite Hheights in Hy. apply lookup_replicate in Hy as [-> _].
    congruence.
Qed.

(** X6: with at least one column the layout is empty exactly when the
    test of the loop fails for every image at the top of a column, where
    [y] is [gap]. *)
Theorem layout_empty_iff_no_image_fits (images : list ProcessedImage.t) :
  (1 <= columns)%nat ->
  calculateMasonryLayout images bannerWidth bannerHeight columns gap = []
  <-> Forall (fun image =>
                (gap + height' image <=? bannerHeight - gap) = false) images.
Proof.
  intros Hcolumns. unfold calculateMasonryLayout, run.
  assert (forall st,
            items st = [] -> columnHeights st = replicate columns gap ->
            items (fold_left place' images st) = []
            <-> Forall (fun image =>
                          (gap + height' image <=? bannerHeight - gap)
                          = false) images) as Hfrom.
  { induction images as [|image rest IH]; intros st Hitems Hheights.
    - simpl. split; [constructor | intros _; exact Hitems].
    - simpl. rewrite Forall_cons.
      pose proof (place64_initial st image Hcolumns Hheights) as Hturn.
      destruct (gap + height' image <=? bannerHeight - gap).
      + destruct Hturn as [i ->]. split; [|intros [? _]; discriminate].
        destruct (fold64_items bannerWidth bannerHeight columns gap rest
                    (placedIn' st image i gap)) as (added & -> & _).
        simpl. rewrite Hitems. simpl. discriminate.
      + rewrite Hturn, (IH st Hitems Hheights). tauto. }
  apply Hfrom; reflexivity.
Qed.

End Empty64.

(** ** The conversion to pixels in binary64 *)

Section Rounding64.
Import Binary64.

Lemma digits2_pos_size (p : positive) : digits2_pos p = Pos.size p.
Proof. induction p as [p IH|p IH|]; simpl; congruence. Qed.

Lemma iter_xO_digits (p k : positive) :
  digits2_pos (Pos.iter xO p k) = (digits2_pos p + k)%positive.
Proof.
  induction k as [|k IH] using Pos.peano_ind.
  - simpl. lia.
  - rewrite Pos.iter_succ. simpl. rewrite IH. lia.
Qed.

Lemma iter_xO_value (p k : positive) :
  Z.pos (Pos.iter xO p k) = (Z.pos p * 2 ^ Z.pos k)%Z.
Proof.
  induction k as [|k IH] using Pos.peano_ind.
  - simpl. lia.
  - rewrite Pos.iter_succ, Pos2Z.inj_xO, IH, Pos2Z.inj_succ, Z.pow_succ_r; lia.
Qed.

Lemma digits2_pos_bound (p : positive) :
  (Z.pos p < 2 ^ 53)%Z -> (Z.pos (digits2_pos p) <= 53)%Z.
Proof.
  intros Hp. rewrite digits2_pos_size.
  pose proof (Pos.size_le p) as Hsize.
  assert (2 ^ Z.pos (Pos.size p) <= 2 * Z.pos p)%Z as Hle.
  { rewrite <- Pos2Z.inj_pow. change 2%Z with (Z.pos 2) at 1.
    rewrite <- Pos2Z.inj_mul. apply Pos2Z.pos_le_pos. exact Hsize. }
  destruct (Z_le_gt_dec (Z.pos (Pos.size p)) 53) as [Hok|Hbig]; [exact Hok|].
  assert (2 ^ 54 <= 2 ^ Z.pos (Pos.size p))%Z
    by (apply Z.pow_le_mono_r; lia).
  lia.
Qed.

Lemma bound_digits2_pos (p : positive) :
  (Z.pos (digits2_pos p) <= 53)%Z -> (Z.pos p < 2 ^ 53)%Z.
Proof.
  intros Hd. rewrite digits2_pos_size in Hd.
  pose proof (Pos.size_gt p) as Hsize.
  apply Pos2Z.pos_lt_pos in Hsize. rewrite Pos2Z.inj_pow in Hsize.
  assert (2 ^ Z.pos (Pos.size p) <= 2 ^ 53)%Z
    by (apply Z.pow_le_mono_r; lia).
  lia.
Qed.

(** An integer of at most 53 bits is a number: the conversion is exact. *)
Lemma binary_normalize_integer (p : positive) :
  (Z.pos p < 2 ^ 53)%Z ->
  SFvalue (binary_normalize prec emax (Z.pos p) 0 false)
  == inject_Z (Z.pos p).
Proof.
  intros Hp. pose proof (digits2_pos_bound p Hp) as Hd.
  unfold binary_normalize, binary_round.
  assert (fexp prec emax (Z.pos (digits2_pos p) + 0)
          = Z.pos (digits2_pos p) - 53)%Z as ->
    by (unfold fexp, emin, prec, emax; lia).
  assert (forall mz ez,
            Z.pos (digits2_pos mz) = 53%Z -> (- 52 <= ez <= 0)%Z ->
            binary_round_aux prec emax false (Z.pos mz) ez loc_Exact
            = S754_finite false mz ez) as Haux.
  { intros mz ez Hmz Hez. unfold binary_round_aux, shr_fexp. simpl Zdigits2.
    rewrite Hmz.
    assert (fexp prec emax (53 + ez) - ez = 0)%Z as ->
      by (unfold fexp, emin, prec, emax; lia).
    simpl. rewrite Hmz.
    assert (fexp prec emax (53 + ez) - ez = 0)%Z as ->
      by (unfold fexp, emin, prec, emax; lia).
    simpl. replace (ez <=? emax - prec)%Z with true
      by (symmetry; apply Z.leb_le; unfold emax, prec; lia).
    reflexivity. }
  unfold shl_align.
  destruct (Z.pos (digits2_pos p) - 53 - 0)%Z as [|k|k] eqn:Hk; [|lia|].
  - rewrite Haux by lia. unfold SFvalue.
    replace (Z.pos (digits2_pos p) - 53)%Z with 0%Z by lia. simpl.
    rewrite Z.mul_1_r. reflexivity.
  - rewrite Haux; [|rewrite iter_xO_digits; lia | lia].
    unfold SFvalue.
    replace (0 <=? Z.pos (digits2_pos p) - 53)%Z with false
      by (symmetry; apply Z.leb_gt; lia).
    replace (- (Z.pos (digits2_pos p) - 53))%Z with (Z.pos k) by lia.
    simpl cond_Zopp. rewrite iter_xO_value, inject_Z_mult.
    assert (~ inject_Z (2 ^ Z.pos k) == 0) as Hpow.
    { change 0 with (inject_Z 0). rewrite inject_Z_injective.
      pose proof (Z.pow_pos_nonneg 2 (Z.pos k)). lia. }
    field. exact Hpow.
Qed.

Lemma of_uint63_value (p : positive) :
  (Z.pos p < 2 ^ 53)%Z ->
  value (of_uint63 (Uint63.of_Z (Z.pos p))) == inject_Z (Z.pos p).
Proof.
  intros Hp. unfold value. rewrite of_uint63_spec, of_Z_spec.
  assert (2 ^ 53 < wB)%Z as HwB by reflexivity.
  rewrite Z.mod_small by lia.
  apply binary_normalize_integer, Hp.
Qed.

Lemma SFvalue_opp (x : spec_float) : SFvalue (SFopp x) == - SFvalue x.
Proof.
  destruct x as [s|s| |s m e]; simpl; try reflexivity.
  assert (cond_Zopp (negb s) (Z.pos m) = - cond_Zopp s (Z.pos m))%Z as ->
    by (destruct s; reflexivity).
  destruct (0 <=? e)%Z.
  - rewrite Z.mul_opp_l, inject_Z_opp. reflexivity.
  - rewrite inject_Z_opp. unfold Qdiv. ring.
Qed.

Lemma of_Z_value (n : Z) :
  (- 2 ^ 53 < n < 2 ^ 53)%Z -> value (of_Z n) == inject_Z n.
Proof.
  intros Hn. destruct n as [|p|p].
  - reflexivity.
  - apply of_uint63_value. lia.
  - change (of_Z (Z.neg p))
      with (- of_uint63 (Uint63.of_Z (Z.pos p)))%float.
    pose proof (of_uint63_value p ltac:(lia)) as Hp. unfold value in *.
    rewrite FloatAxioms.opp_spec, SFvalue_opp, Hp.
    change (Z.neg p) with (- Z.pos p)%Z. rewrite inject_Z_opp. reflexivity.
Qed.

Lemma valid_mantissa (x : float) (s : bool) (m : positive) (e : Z) :
  Prim2SF x = S754_finite s m e -> (Z.pos m < 2 ^ 53)%Z.
Proof.
  intros E. pose proof (Prim2SF_valid x) as Hvalid. rewrite E in Hvalid.
  unfold SpecFloat.valid_binary, bounded, canonical_mantissa in Hvalid.
  apply andb_true_iff in Hvalid as [Hcanonical _].
  apply Z.eqb_eq in Hcanonical.
  apply bound_digits2_pos. revert Hcanonical.
  unfold fexp, emin, prec, emax. lia.
Qed.

(** [floor(a / p + 1/2)], computed in the integers, is nearest to
    [a / p]. *)
Lemma nearest_quotient (a k : Z) :
  (0 < k)%Z ->
  nearest (inject_Z a / inject_Z (2 ^ k))
    ((2 * a + 2 ^ k) / 2 ^ (1 + k)).
Proof.
  intros Hk. rewrite Z.pow_add_r by lia. change (2 ^ 1)%Z with 2%Z.
  pose proof (Z.pow_pos_nonneg 2 k ltac:(lia) ltac:(lia)) as Hpos.
  set (P := (2 ^ k)%Z) in *. set (n := ((2 * a + P) / (2 * P))%Z).
  pose proof (Z.mul_div_le (2 * a + P) (2 * P) ltac:(lia)) as Hle.
  pose proof (Z.mul_succ_div_gt (2 * a + P) (2 * P) ltac:(lia)) as Hlt.
  fold n in Hle, Hlt.
  rewrite Zle_Qle in Hle. rewrite Zlt_Qlt in Hlt.
  unfold Z.succ in Hlt. clearbody n.
  repeat rewrite ?inject_Z_plus, ?inject_Z_mult in Hle.
  repeat rewrite ?inject_Z_plus, ?inject_Z_mult in Hlt.
  change (inject_Z 2) with 2 in *. change (inject_Z 1) with 1 in *.
  assert (0 < inject_Z P) as HP
    by (change 0 with (inject_Z 0); rewrite <- Zlt_Qlt; exact Hpos).
  set (v := inject_Z a / inject_Z P).
  assert (inject_Z a == v * inject_Z P) as Ha
    by (unfold v; field; lra).
  clearbody v. unfold nearest. split.
  - apply (Qmult_lt_r _ _ (inject_Z P) HP). lra.
  - apply (Qmult_le_r _ _ (inject_Z P) HP). lra.
Qed.

Lemma rounded_integer_bound (a k : Z) :
  (0 < k)%Z -> (- 2 ^ 53 < a < 2 ^ 53)%Z ->
  (- 2 ^ 53 < (2 * a + 2 ^ k) / 2 ^ (1 + k) < 2 ^ 53)%Z.
Proof.
  intros Hk Ha. rewrite Z.pow_add_r by lia. change (2 ^ 1)%Z with 2%Z.
  assert (2 <= 2 ^ k)%Z as Hpos.
  { change 2%Z with (2 ^ 1)%Z at 1. apply Z.pow_le_mono_r; lia. }
  set (P := (2 ^ k)%Z) in *.
  split.
  - apply Z.lt_le_trans with (- 2 ^ 53 + 1)%Z; [lia|].
    apply Z.div_le_lower_bound; lia.
  - apply Z.div_lt_upper_bound; lia.
Qed.

(** [Math.round] of a number answers a number whose value is integral,
    the integer nearest to the value of the argument, a half going up. *)
Lemma Math_round_nearest64 (x : float) :
  is_finite x = true ->
  exists n : Z, value (Math_round x) == inject_Z n /\ nearest (value x) n.
Proof.
  rewrite is_finite_spec. unfold Math_round, value. intros Hfinite.
  destruct (Prim2SF x) as [s|s| |s m e] eqn:E; try contradiction.
  - exists 0%Z. rewrite E. change (SFvalue (S754_zero s)) with 0.
    change (inject_Z 0) with 0. split; [reflexivity|].
    unfold nearest. change (inject_Z 0) with 0. split; lra.
  - destruct (0 <=? e)%Z eqn:He.
    + exists (cond_Zopp s (Z.pos m) * 2 ^ e)%Z. rewrite E. unfold SFvalue.
      rewrite He. split; [reflexivity|]. unfold nearest. split; lra.
    + apply Z.leb_gt in He.
      pose proof (valid_mantissa x s m e E) as Hm.
      assert (- 2 ^ 53 < cond_Zopp s (Z.pos m) < 2 ^ 53)%Z as Hsm
        by (destruct s; simpl; lia).
      replace (1 - e)%Z with (1 + - e)%Z by lia.
      pose proof (nearest_quotient (cond_Zopp s (Z.pos m)) (- e) ltac:(lia))
        as Hnear.
      pose proof (rounded_integer_bound (cond_Zopp s (Z.pos m)) (- e)
                    ltac:(lia) Hsm) as Hbound.
      set (n := ((2 * cond_Zopp s (Z.pos m) + 2 ^ (- e)) / 2 ^ (1 + - e))%Z)
        in *.
      exists n. simpl SFvalue.
      replace (0 <=? e)%Z with false by (symmetry; apply Z.leb_gt; lia).
      split; [|exact Hnear].
      destruct (n =? 0)%Z eqn:Hn.
      * apply Z.eqb_eq in Hn. rewrite Hn. destruct s; reflexivity.
      * apply of_Z_value, Hbound.
Qed.

Lemma Math_round_not_finite (x : float) :
  is_finite x = false -> Math_round x = x.
Proof.
  intros Hx. unfold Math_round.
  destruct (Prim2SF x) as [s|s| |s m e] eqn:E; try reflexivity.
  assert (is_finite x = true) by (apply is_finite_spec; rewrite E; exact I).
  congruence.
Qed.

(** C6: the conversion yields [round(width)] and [round(height)] in
    pixels, whatever the dpi; [round(width * dpi)] and
    [round(height * dpi)] in inches; [round(width / 2.54 * dpi)] and
    [round(height / 2.54 * dpi)] in centimeters, the products and the
    quotient being those of binary64.  [Math.round] is applied once, to
    the finished size: when that size is finite, the result is a number
    whose value is an integer, the one nearest to the value of the size,
    a half going up; a size that is [NaN] or an infinity is left as it
    is. *)
Theorem bannerPixels_rounds_exact_size (config : PrintConfig.t) :
  bannerPixels config
  = match PrintConfig.unit config with
    | px =>
        (Math_round (PrintConfig.width config),
         Math_round (PrintConfig.height config))
    | inch =>
        (Math_round (PrintConfig.width config * PrintConfig.dpi config),
         Math_round (PrintConfig.height config * PrintConfig.dpi config))
    | cm =>
        (Math_round
           (PrintConfig.width config / 2.54 * PrintConfig.dpi config),
         Math_round
           (PrintConfig.height config / 2.54 * PrintConfig.dpi config))
    end
  /\ (forall width height dpi dpi' quality quality',
        bannerPixels (PrintConfig.mk width height px dpi quality)
        = bannerPixels (PrintConfig.mk width height px dpi' quality'))
  /\ (is_finite (fst (unroundedPixels config)) = true ->
      exists n : Z,
        value (fst (bannerPixels config)) == inject_Z n
        /\ nearest (value (fst (unroundedPixels config))) n)
  /\ (is_finite (snd (unroundedPixels config)) = true ->
      exists n : Z,
        value (snd (bannerPixels config)) == inject_Z n
        /\ nearest (value (snd (unroundedPixels config))) n)
  /\ (is_finite (fst (unroundedPixels config)) = false ->
      fst (bannerPixels config) = fst (unroundedPixels config))
  /\ (is_finite (snd (unroundedPixels config)) = false ->
      snd (bannerPixels config) = snd (unroundedPixels config)).
Proof.
  split; [|split; [reflexivity|]].
  - unfold bannerPixels, unroundedPixels.
    destruct (PrintConfig.unit config); reflexivity.
  - unfold bannerPixels.
    destruct (unroundedPixels config) as [bannerWidth bannerHeight].
    split; [apply Math_round_nearest64|].
    split; [apply Math_round_nearest64|].
    split; apply Math_round_not_finite.
Qed.

(** The scenario of the specification; a size whose product is rounded
    by the multiplication before [Math.round] sees it; and a size in
    centimeters, whose quotient by 2.54 is not rounded to an integer
    before it is multiplied. *)
Example bannerPixels_scenarios :
  bannerPixels (PrintConfig.mk 10 15 inch 300 0.9) = (3000, 4500)%float
  /\ unroundedPixels (PrintConfig.mk 1.13 1.15 inch 150 0.9)
     = (169.49999999999997, 172.5)%float
  /\ bannerPixels (PrintConfig.mk 1.13 1.15 inch 150 0.9) = (169, 173)%float
  /\ bannerPixels (PrintConfig.mk 10 10 cm 300 0.9) = (1181, 1181)%float
  /\ (Math_round (10 / 2.54) * 300 = 1200)%float
  /\ bannerPixels (PrintConfig.mk (-0.5) 2.5 px 300 0.9) = (-0, 3)%float
  /\ bannerPixels (PrintConfig.mk nan infinity px 300 0.9) = (nan, infinity).
Proof. repeat split; vm_compute; reflexivity. Qed.

End Rounding64.

(** ** A banner too narrow for its gaps *)

(** C7: a banner 5 wide is laid out in one column with the gap 10: the
    column is 15 less than nothing wide, the height of a square is -15,
    the test of the loop holds of it ([10 + -15 <= 1000 - 10]) and the
    item recorded starts at [x = 10], right of the banner, and ends at
    [x + width = -5] and [y + height = -5], left of it and above it.
    [generateBanner] computes this layout for a size of 5 by 1000 pixels
    and generates the banner. *)
Theorem narrow_banner_item_leaves_canvas :
  Binary64.columnWidth 5 1 10 = (-15)%float
  /\ Binary64.calculateMasonryLayout [Binary64.square "a"] 5 1000 1 10
     = [Binary64.MasonryItem.mk (Binary64.square "a") 10 10 (-15) (-15)]
  /\ (5 <? 10)%float = true
  /\ (10 + -15 = -5)%float
  /\ (-5 <? 0)%float = true
  /\ bannerColumns 5 = 1%nat
  /\ map rectangle
       (bannerLayout [square "a"] (PrintConfig.mk 5 1000 px 300 (9 # 10)))
     = [("a"%string, 10, 10, -15, -15)]
  /\ snd (generateBanner willingBrowser [square "a"]
            (PrintConfig.mk 5 1000 px 300 (9 # 10)))
     = inr (mkBlob 1024).
Proof. repeat split; vm_compute; reflexivity. Qed.

(** C8: a banner 10 wide is laid out in one column with the gap 10: the
    column is 10 less than nothing wide, an item of height -10 leaves
    the filled height of the column where it was ([10 + -10 + 10]), and
    two squares are recorded at the same offsets with the same width and
    height: their vertical ranges are the same.  [generateBanner]
    computes this layout for a size of 10 by 1000 pixels. *)
Theorem narrow_banner_items_coincide :
  Binary64.calculateMasonryLayout
    [Binary64.square "a"; Binary64.square "b"] 10 1000 1 10
  = [Binary64.MasonryItem.mk (Binary64.square "a") 10 10 (-10) (-10);
     Binary64.MasonryItem.mk (Binary64.square "b") 10 10 (-10) (-10)]
  /\ Binary64.columnHeights
       (Binary64.run 10 1000 1 10 [Binary64.square "a"])
     = [10%float]
  /\ bannerColumns 10 = 1%nat
  /\ map rectangle
       (bannerLayout [square "a"; square "b"]
          (PrintConfig.mk 10 1000 px 300 (9 # 10)))
     = [("a"%string, 10, 10, -10, -10); ("b"%string, 10, 10, -10, -10)]
  /\ snd (generateBanner willingBrowser [square "a"; square "b"]
            (PrintConfig.mk 10 1000 px 300 (9 # 10)))
     = inr (mkBlob 1024).
Proof. repeat split; vm_compute; reflexivity. Qed.

(** ** The properties at work, and the inputs that bound them *)

Ltac positive_images := repeat constructor.

(** A size all of whose numbers are negative is converted to 3000 by 4500
    pixels and the banner is generated. *)
Lemma negative_size_generates_banner :
  invalidDimension negativeInches
  /\ bannerPixels negativeInches = (3000, 4500)%Z
  /\ snd (generateBanner willingBrowser [square "a"; square "b"]
            negativeInches)
     = inr (mkBlob 1024)
  /\ generateBanner willingBrowser [square "a"; square "b"] negativeInches
     = generateBanner willingBrowser [square "a"; square "b"]
         tenByFifteenInches.
Proof.
  split; [left; vm_compute; discriminate|].
  repeat split; vm_compute; reflexivity.
Qed.

Lemma generateBanner_accepts_invalid_dimension_witness :
  [square "a"] <> []
  /\ invalidDimension negativeInches
  /\ ((fst (bannerPixels negativeInches) <= 16000)%Z ->
      (snd (bannerPixels negativeInches) <= 16000)%Z ->
      exists trace result,
        generateBanner willingBrowser [square "a"] negativeInches
        = (onProgress 5 :: onProgress 10 :: trace, result)).
Proof.
  split; [discriminate|].
  assert (invalidDimension negativeInches) as Hinvalid
    by (left; vm_compute; discriminate).
  split; [exact Hinvalid|].
  apply (generateBanner_accepts_invalid_dimension willingBrowser
           [square "a"] negativeInches); [discriminate | exact Hinvalid].
Defined.

(** Without an image a size of 20000 by 20000 pixels does not fail for
    its size. *)
Lemma too_large_without_images_fails_for_images :
  bannerPixels twentyThousandPixels = (20000, 20000)%Z
  /\ generateBanner willingBrowser [] twentyThousandPixels
     = ([], inl NoImages).
Proof. split; vm_compute; reflexivity. Qed.

Lemma generateBanner_checks_size_before_layout_witness :
  [square "a"] <> []
  /\ (16000 < fst (bannerPixels twentyThousandPixels)
      \/ 16000 < snd (bannerPixels twentyThousandPixels))%Z
  /\ generateBanner willingBrowser [square "a"] twentyThousandPixels
     = ([onProgress 5],
        inl (DimensionsTooLarge 16000
               (fst (bannerPixels twentyThousandPixels))
               (snd (bannerPixels twentyThousandPixels)))).
Proof.
  split; [discriminate|].
  assert (16000 < fst (bannerPixels twentyThousandPixels)
          \/ 16000 < snd (bannerPixels twentyThousandPixels))%Z as Hlarge
    by (left; vm_compute; reflexivity).
  split; [exact Hlarge|].
  apply (generateBanner_checks_size_before_layout willingBrowser
           [square "a"] twentyThousandPixels); [discriminate | exact Hlarge].
Defined.

Lemma placement_keeps_aspect_ratio_witness :
  Forall positiveDimensions [portrait "a"]
  /\ ~ columnWidth 1000 3 10 == 0
  /\ forall item,
       item ∈ calculateMasonryLayout [portrait "a"] 1000 1000 3 10 ->
       MasonryItem.width item / MasonryItem.height item
       == Dimensions.width (ProcessedImage.originalDimensions
                              (MasonryItem.image item))
          / Dimensions.height (ProcessedImage.originalDimensions
                                 (MasonryItem.image item)).
Proof.
  split; [positive_images|]. split; [discriminate|].
  intros item Hin.
  apply (placement_keeps_aspect_ratio 1000 1000 3 10 [portrait "a"] item);
    [positive_images | discriminate | exact Hin].
Defined.

(** ** The binary64 properties at work *)

Section Binary64AtWork.
Import Binary64.
Local Open Scope float_scope.

Lemma layout_takes_first_shortest_column_witness :
  (1 <= 3)%nat
  /\ is_finite 10 = true
  /\ map MasonryItem.image
       (calculateMasonryLayout [square "a"; square "b"; square "c"]
          1000 1000 3 10)
     `sublist_of` [square "a"; square "b"; square "c"]
  /\ exists i y,
       firstShortest (columnHeights (run 1000 1000 3 10 [square "a"])) i y
       /\ run 1000 1000 3 10 [square "a"; square "b"]
          = if y + columnWidth 1000 3 10 / (100 / 100) <=? 1000 - 10
            then
              {| items := items (run 1000 1000 3 10 [square "a"])
                   ++ [MasonryItem.mk (square "b")
                         (10 + of_nat i * (columnWidth 1000 3 10 + 10))
                         y
                         (columnWidth 1000 3 10)
                         (columnWidth 1000 3 10 / (100 / 100))];
                 columnHeights :=
                   <[i := y + columnWidth 1000 3 10 / (100 / 100) + 10]>
                     (columnHeights (run 1000 1000 3 10 [square "a"])) |}
            else run 1000 1000 3 10 [square "a"].
Proof.
  split; [lia|]. split; [reflexivity|].
  destruct (layout_takes_first_shortest_column 1000 1000 3 10
              [square "a"] (square "b") [square "c"])
    as (_ & _ & Horder & _ & i & y & Hfirst & Hturn); [lia | reflexivity|].
  split; [exact Horder|]. exists i, y. split; [exact Hfirst | exact Hturn].
Defined.

Lemma place_rejects_or_advances_witness :
  (1 <= 1)%nat
  /\ is_finite 10 = true
  /\ is_finite 1000 = true
  /\ is_finite (placedHeight 500 1 10 (strip "b")) = true
  /\ exists i y,
       firstShortest (columnHeights (run 500 1000 1 10 [square "a"])) i y
       /\ ((1000 - 10 <? y + placedHeight 500 1 10 (strip "b")) = true ->
           items (run 500 1000 1 10 [square "a"; strip "b"])
           = items (run 500 1000 1 10 [square "a"])
           /\ columnHeights (run 500 1000 1 10 [square "a"; strip "b"])
              = columnHeights (run 500 1000 1 10 [square "a"])
           /\ calculateMasonryLayout [square "a"; strip "b"; square "c"]
                500 1000 1 10
              = calculateMasonryLayout [square "a"; square "c"]
                  500 1000 1 10).
Proof.
  split; [lia|]. do 3 (split; [reflexivity|]).
  destruct (place_rejects_or_advances 500 1000 1 10
              [square "a"] (strip "b") [square "c"])
    as (i & y & Hfirst & Hrejected & _);
    [lia | reflexivity | reflexivity | reflexivity|].
  exists i, y. split; [exact Hfirst | exact Hrejected].
Defined.

(** The layout returns the same items for a list and for the list with
    one more image, which is rejected: what it returns does not tell how
    many images were rejected. *)
Lemma layout_returns_no_rejected_count :
  calculateMasonryLayout [square "a"] 1000 1000 3 10
  = calculateMasonryLayout [square "a"; strip "b"] 1000 1000 3 10
  /\ rejectedCount [square "a"] 1000 1000 3 10 = 0%nat
  /\ rejectedCount [square "a"; strip "b"] 1000 1000 3 10 = 1%nat.
Proof. repeat split; vm_compute; reflexivity. Qed.

Lemma rejected_count_complements_layout_witness :
  (1 <= 3)%nat
  /\ is_finite 10 = true
  /\ is_finite 1000 = true
  /\ Forall (fun image => is_finite (placedHeight 1000 3 10 image) = true)
       [square "a"; strip "b"]
  /\ (length (calculateMasonryLayout [square "a"; strip "b"] 1000 1000 3 10)
      + rejectedCount [square "a"; strip "b"] 1000 1000 3 10
      = length [square "a"; strip "b"])%nat.
Proof.
  assert (Forall
            (fun image => is_finite (placedHeight 1000 3 10 image) = true)
            [square "a"; strip "b"]) as Hfinite
    by (repeat constructor).
  split; [lia|]. do 2 (split; [reflexivity|]). split; [exact Hfinite|].
  apply (rejected_count_complements_layout 1000 1000 3 10);
    [lia | reflexivity | reflexivity | exact Hfinite].
Defined.

Lemma bannerPixels_rounds_exact_size_witness :
  is_finite (fst (unroundedPixels (PrintConfig.mk 1.13 1.15 inch 150 0.9)))
  = true
  /\ exists n : Z,
       value (fst (bannerPixels (PrintConfig.mk 1.13 1.15 inch 150 0.9)))
       == inject_Z n
       /\ nearest
            (value
               (fst (unroundedPixels
                       (PrintConfig.mk 1.13 1.15 inch 150 0.9))))
            n.
Proof.
  split; [reflexivity|].
  destruct (bannerPixels_rounds_exact_size
              (PrintConfig.mk 1.13 1.15 inch 150 0.9))
    as (_ & _ & Hwidth & _).
  apply Hwidth. reflexivity.
Defined.

Lemma layout_empty_iff_no_image_fits_witness :
  (1 <= 1)%nat
  /\ (calculateMasonryLayout [picture "a" 1200 1100] 440 405 1 10 = []
      <-> Forall (fun image =>
                    (10 + placedHeight 440 1 10 image <=? 405 - 10) = false)
            [picture "a" 1200 1100]).
Proof.
  split; [lia|].
  apply (layout_empty_iff_no_image_fits 440 405 1 10
           [picture "a" 1200 1100]).
  lia.
Defined.

(** *** Scenarios *)

(** Five squares in three columns of a banner of 1000 by 1000: the
    columns are 320 wide, the first three squares start at 10 and the
    last two at 340 in the first two columns; none is rejected. *)
Example five_squares_in_three_columns :
  columnWidth 1000 3 10 = 320
  /\ map rectangle
       (calculateMasonryLayout
          [square "1"; square "2"; square "3"; square "4"; square "5"]
          1000 1000 3 10)
     = [("1", 10, 10, 320, 320); ("2", 340, 10, 320, 320);
        ("3", 670, 10, 320, 320); ("4", 10, 340, 320, 320);
        ("5", 340, 340, 320, 320)]%string
  /\ rejectedCount
       [square "1"; square "2"; square "3"; square "4"; square "5"]
       1000 1000 3 10 = 0%nat.
Proof. repeat split; vm_compute; reflexivity. Qed.

(** An image of 1200 by 1100 in a banner of 440 by 405 with one column:
    the column is 420 wide and the quotient [420 / (1200 / 1100)] is
    rounded to the number after 385, so that the image, which would fill
    the banner to its last pixel, is rejected. *)
Example fit_test_rounds :
  placedHeight 440 1 10 (picture "a" 1200 1100) = 385.00000000000006
  /\ (10 + 385.00000000000006 <=? 405 - 10) = false
  /\ calculateMasonryLayout [picture "a" 1200 1100] 440 405 1 10 = []
  /\ rejectedCount [picture "a" 1200 1100] 440 405 1 10 = 1%nat.
Proof. repeat split; vm_compute; reflexivity. Qed.

(** Two columns that exact arithmetic would fill to the same height,
    488: the second is filled to the number before 488, and the next
    image goes there and not to the first column. *)
Example tie_rounds :
  columnHeights
    (run 810 2000 2 10
       [picture "a" 500 600; picture "b" 500 100; picture "c" 390 380])
  = [488; 487.99999999999994]
  /\ map rectangle
       (calculateMasonryLayout
          [picture "a" 500 600; picture "b" 500 100; picture "c" 390 380;
           square "d"]
          810 2000 2 10)
     = [("a", 10, 10, 390, 468); ("b", 410, 10, 390, 78);
        ("c", 410, 98, 390, 379.99999999999994);
        ("d", 410, 487.99999999999994, 390, 390)]%string.
Proof. split; vm_compute; reflexivity. Qed.

(** Without a gap the right edge of the last column can pass the width
    of the banner by a rounding error: six columns in a banner 7 wide
    are [7 / 6] wide, and the sixth ends past 7. *)
Example right_edge_rounds :
  columnWidth 7 6 0 = 1.1666666666666667
  /\ exists item,
       calculateMasonryLayout
         [square "1"; square "2"; square "3"; square "4"; square "5";
          square "6"]
         7 100 6 0 !! 5%nat = Some item
       /\ MasonryItem.x item = 5.833333333333334
       /\ MasonryItem.x item + MasonryItem.width item = 7.000000000000001
       /\ (7 <? MasonryItem.x item + MasonryItem.width item) = true.
Proof.
  split; [vm_compute; reflexivity|].
  eexists. split; [vm_compute; reflexivity|].
  repeat split; vm_compute; reflexivity.
Qed.

End Binary64AtWork.

(** ** The scenarios of the specification *)

(** An image of 100 by 200 does not fit a banner of 500 by 50: nothing
    is placed and the banner is not generated. *)
Example banner_too_low :
  calculateMasonryLayout [portrait "1"] 500 50 1 10 = []
  /\ generateBanner willingBrowser [portrait "1"]
       (PrintConfig.mk 500 50 px 300 (9 # 10))
     = ([onProgress 5; onProgress 10], inl NoImagesFit).
Proof. repeat split; vm_compute; reflexivity. Qed.

(** A canvas of 20000 by 20000 is refused before the layout. *)
Example banner_too_large :
  generateBanner willingBrowser [square "1"] twentyThousandPixels
  = ([onProgress 5], inl (DimensionsTooLarge 16000 20000 20000))
  /\ message (DimensionsTooLarge 16000 20000 20000)
     = "Banner dimensions too large. Maximum dimension is 16000px. Current: 20000x20000px"%string.
Proof. split; vm_compute; reflexivity. Qed.

(** ** More on the layout *)

Section Order.
Variables (bannerWidth bannerHeight : Q) (columns : nat) (gap : Q).

Local Abbreviation place' := (place bannerWidth bannerHeight columns gap).
Local Abbreviation run' := (run bannerWidth bannerHeight columns gap).
Local Abbreviation height' := (placedHeight bannerWidth columns gap).
Local Abbreviation item' := (placedItem bannerWidth columns gap).
Local Abbreviation placedIn' := (placedIn bannerWidth columns gap).
Local Abbreviation width' := (columnWidth bannerWidth columns gap).
Local Abbreviation X' := (columnX bannerWidth columns gap).

(** The loop only appends to [items], and what it appends are items of
    the images it goes through, in their order. *)
Lemma fold_place_items (images : list ProcessedImage.t) (st : LoopState) :
  exists added,
    items (fold_left place' images st) = items st ++ added
    /\ map MasonryItem.image added `sublist_of` images.
Proof.
  revert st. induction images as [|image rest IH]; intros st; simpl.
  - exists []. rewrite app_nil_r. split; [reflexivity | constructor].
  - destruct (place_cases bannerWidth bannerHeight columns gap st image)
      as [->|(i & y & _ & _ & ->)].
    + destruct (IH st) as (added & Hitems & Hsub).
      exists added. split; [exact Hitems | apply sublist_cons; exact Hsub].
    + destruct (IH (placedIn' st image i y)) as (added & Hitems & Hsub).
      exists (item' image i y :: added). split.
      * rewrite Hitems. simpl. rewrite <- app_assoc. reflexivity.
      * simpl. apply sublist_skip. exact Hsub.
Qed.

(** X1: the images of the returned items, in the order returned, are the
    input images in input order with some left out: no image is moved
    before an earlier one or placed more often than it is in the input. *)
Theorem layout_keeps_input_order (images : list ProcessedImage.t) :
  map MasonryItem.image
    (calculateMasonryLayout images bannerWidth bannerHeight columns gap)
  `sublist_of` images.
Proof.
  unfold calculateMasonryLayout, run.
  destruct (fold_place_items images (initial columns gap))
    as (added & -> & Hsub).
  exact Hsub.
Qed.

(** X2: images that come later change nothing of what was placed before:
    the layout of a list starts with the layout of each of its initial
    parts. *)
Theorem layout_of_prefix_is_prefix (pre post : list ProcessedImage.t) :
  calculateMasonryLayout pre bannerWidth bannerHeight columns gap
  `prefix_of`
  calculateMasonryLayout (pre ++ post) bannerWidth bannerHeight columns gap.
Proof.
  unfold calculateMasonryLayout. rewrite run_app.
  destruct (fold_place_items post (run' pre)) as (added & -> & _).
  exists added. reflexivity.
Qed.

(** Without a column the loop changes nothing. *)
Lemma place_without_columns (st : LoopState) (image : ProcessedImage.t) :
  columnHeights st = [] -> place' st image = st.
Proof. intros Hnone. unfold place. rewrite Hnone. reflexivity. Qed.

(** Every filled height is [gap] or ends, with the gap, an item at the
    x-offset of its column; and every item starts at [gap] or where an
    earlier item at its x-offset ends, with the gap. *)
Lemma run_stacks_from_gap (images : list ProcessedImage.t) :
  (forall c h,
     columnHeights (run' images) !! c = Some h ->
     h = gap
     \/ exists k a,
          items (run' images) !! k = Some a
          /\ MasonryItem.x a = X' c
          /\ h = MasonryItem.y a + MasonryItem.height a + gap)
  /\ (forall l b,
        items (run' images) !! l = Some b ->
        MasonryItem.y b = gap
        \/ exists k a,
             (k < l)%nat
             /\ items (run' images) !! k = Some a
             /\ MasonryItem.x a = MasonryItem.x b
             /\ MasonryItem.y b
                = MasonryItem.y a + MasonryItem.height a + gap).
Proof.
  apply (run_invariant bannerWidth bannerHeight columns gap
    (fun st =>
       (forall c h,
          columnHeights st !! c = Some h ->
          h = gap
          \/ exists k a,
               items st !! k = Some a
               /\ MasonryItem.x a = X' c
               /\ h = MasonryItem.y a + MasonryItem.height a + gap)
       /\ (forall l b,
             items st !! l = Some b ->
             MasonryItem.y b = gap
             \/ exists k a,
                  (k < l)%nat
                  /\ items st !! k = Some a
                  /\ MasonryItem.x a = MasonryItem.x b
                  /\ MasonryItem.y b
                     = MasonryItem.y a + MasonryItem.height a + gap))).
  - split.
    + intros c h Hc. apply lookup_replicate in Hc. left. tauto.
    + intros l b Hb. destruct l; discriminate.
  - intros st image _ [Htop Hitems].
    destruct (place_cases bannerWidth bannerHeight columns gap st image)
      as [->|(i & y & (Hy & _) & _ & ->)]; [auto|].
    pose proof (lookup_lt_Some _ _ _ Hy) as Hi.
    split; simpl.
    + intros c h Hc. destruct (decide (c = i)) as [->|Hne].
      * rewrite list_lookup_insert_eq in Hc by exact Hi.
        injection Hc as <-. right.
        exists (length (items st)), (item' image i y).
        split; [apply list_lookup_middle; reflexivity|].
        split; reflexivity.
      * rewrite list_lookup_insert_ne in Hc by congruence.
        destruct (Htop c h Hc) as [->|(k & a & Ha & Hx & Hh)]; [left; reflexivity|].
        right. exists k, a.
        split; [apply lookup_app_l_Some; exact Ha | auto].
    + intros l b Hb. apply lookup_snoc_Some in Hb.
      destruct Hb as [[_ Hb]|[-> <-]].
      * destruct (Hitems l b Hb) as [Hgap|(k & a & Hk & Ha & Hx & Hh)];
          [left; exact Hgap|].
        right. exists k, a.
        split; [exact Hk|]. split; [apply lookup_app_l_Some; exact Ha | auto].
      * simpl.
        destruct (Htop i y Hy) as [->|(k & a & Ha & Hx & Hh)];
          [left; reflexivity|].
        right. exists k, a.
        split; [eapply lookup_lt_Some; exact Ha|].
        split; [apply lookup_app_l_Some; exact Ha | auto].
Qed.

(** X3: a column has no hole: every returned item starts at the top
    margin [gap], or exactly [gap] below the end of an item that was
    returned before it and has the same x-offset. *)
Theorem layout_stacks_items_gap_apart (images : list ProcessedImage.t)
    (l : nat) (b : MasonryItem.t) :
  calculateMasonryLayout images bannerWidth bannerHeight columns gap !! l
    = Some b ->
  MasonryItem.y b = gap
  \/ exists k a,
       (k < l)%nat
       /\ calculateMasonryLayout images bannerWidth bannerHeight columns gap
            !! k = Some a
       /\ MasonryItem.x a = MasonryItem.x b
       /\ MasonryItem.y b = MasonryItem.y a + MasonryItem.height a + gap.
Proof.
  unfold calculateMasonryLayout.
  destruct (run_stacks_from_gap images) as [_ Hitems]. apply Hitems.
Qed.

End Order.

(** X4: without a column nothing is placed, whatever the images. *)
Theorem layout_without_columns_is_empty (images : list ProcessedImage.t)
    (bannerWidth bannerHeight gap : Q) :
  calculateMasonryLayout images bannerWidth bannerHeight 0 gap = [].
Proof.
  unfold calculateMasonryLayout.
  apply (run_invariant bannerWidth bannerHeight 0 gap
           (fun st => items st = [] /\ columnHeights st = [])).
  - split; reflexivity.
  - intros st image _ [Hitems Hnone].
    rewrite place_without_columns by exact Hnone. auto.
Qed.


(** ** More on [generateBanner] *)

(** The run of [generateBanner] for at least one image and a size within
    the limit. *)
Lemma generateBanner_unfolded (browser : Browser)
    (images : list ProcessedImage.t) (config : PrintConfig.t) :
  images <> [] ->
  (fst (bannerPixels config) <= maxDimension)%Z ->
  (snd (bannerPixels config) <= maxDimension)%Z ->
  generateBanner browser images config
  = if (length (bannerLayout images config) =? 0)%nat
    then ([onProgress 5; onProgress 10], inl NoImagesFit)
    else if getContext browser
         then (drawingTrace browser (fst (bannerPixels config))
                 (snd (bannerPixels config)) (PrintConfig.quality config)
                 (bannerLayout images config),
               blobOutcome browser)
         else ([onProgress 5; onProgress 10; onProgress 20;
                createCanvas (fst (bannerPixels config))
                  (snd (bannerPixels config))],
               inl NoCanvasContext).
Proof.
  intros Himages Hwidth Hheight.
  unfold generateBanner, bannerLayout, bannerColumns, drawingTrace,
    blobOutcome.
  destruct images as [|image rest]; [congruence|].
  destruct (bannerPixels config) as [bannerWidth bannerHeight].
  simpl in Hwidth, Hheight. simpl fst. simpl snd.
  replace (bannerWidth >? maxDimension)%Z with false by lia.
  replace (bannerHeight >? maxDimension)%Z with false by lia.
  simpl length at 1. simpl orb. cbv iota.
  set (layout := calculateMasonryLayout _ _ _ _ _).
  destruct (drawItems_succeeds browser (length layout) 0 layout)
    as [drawn Hdrawn].
  destruct (length layout =? 0)%nat; [reflexivity|].
  destruct (getContext browser); [|reflexivity].
  unfold mbind, M_bind, emit, throw, mret, M_ret. rewrite Hdrawn.
  destruct (canvasToBlob browser); simpl;
    rewrite ?app_nil_r, <- ?app_assoc; reflexivity.
Qed.

(** X8: how [generateBanner] ends is decided by five checks in this
    order: no image, a size beyond 16000, no image placed, no canvas
    context, the outcome of [toBlob].  Whether the images load does not
    enter it: a load that fails never fails the banner. *)
Theorem generateBanner_outcome (browser : Browser)
    (images : list ProcessedImage.t) (config : PrintConfig.t) :
  snd (generateBanner browser images config)
  = if (length images =? 0)%nat then inl NoImages
    else if ((fst (bannerPixels config) >? 16000)%Z
             || (snd (bannerPixels config) >? 16000)%Z)
    then inl (DimensionsTooLarge 16000 (fst (bannerPixels config))
                (snd (bannerPixels config)))
    else if (length (bannerLayout images config) =? 0)%nat
    then inl NoImagesFit
    else if getContext browser
    then match canvasToBlob browser with
         | blobResult result => inr result
         | blobNull => inl ToBlobNull
         | blobThrows reason => inl (ToBlobFailed reason)
         end
    else inl NoCanvasContext.
Proof.
  destruct images as [|image rest]; [reflexivity|].
  simpl length at 1. cbv iota beta.
  destruct ((fst (bannerPixels config) >? 16000)%Z
            || (snd (bannerPixels config) >? 16000)%Z) eqn:Hlarge.
  - rewrite generateBanner_too_large; [reflexivity | discriminate|].
    apply orb_true_iff in Hlarge. unfold maxDimension. lia.
  - apply orb_false_iff in Hlarge.
    rewrite generateBanner_unfolded;
      [|discriminate | unfold maxDimension; lia | unfold maxDimension; lia].
    destruct (length (bannerLayout _ config) =? 0)%nat; [reflexivity|].
    destruct (getContext browser); reflexivity.
Qed.

(** What one turn of the drawing loop adds to the trace. *)
Lemma drawItems_cons (browser : Browser) (totalItems i : nat)
    (item : MasonryItem.t) (rest : list MasonryItem.t) :
  fst (drawItems browser totalItems i (item :: rest))
  = (if loadImage browser (ProcessedImage.display (MasonryItem.image item))
     then [drawImage (ProcessedImage.display (MasonryItem.image item))
             (MasonryItem.x item) (MasonryItem.y item)
             (MasonryItem.width item) (MasonryItem.height item);
           strokeRect "#e2e8f0" 1
             (MasonryItem.x item) (MasonryItem.y item)
             (MasonryItem.width item) (MasonryItem.height item);
           onProgress (drawProgress totalItems i)]
     else [console_error
             (ProcessedImage.originalFile (MasonryItem.image item))])
    ++ fst (drawItems browser totalItems (S i) rest).
Proof.
  simpl. destruct (drawItems_succeeds browser totalItems (S i) rest)
    as [trace Hrest].
  rewrite Hrest. unfold drawItem.
  destruct (loadImage browser _); reflexivity.
Qed.

Lemma drawnOf_drawItems (browser : Browser) (totalItems i : nat)
    (layout : list MasonryItem.t) :
  drawnOf (fst (drawItems browser totalItems i layout))
  = map drawing
      (List.filter
         (fun item =>
            loadImage browser (ProcessedImage.display (MasonryItem.image item)))
         layout).
Proof.
  revert i. induction layout as [|item rest IH]; intros i; [reflexivity|].
  rewrite drawItems_cons. unfold drawnOf in *. rewrite omap_app, IH.
  simpl. destruct (loadImage browser _); reflexivity.
Qed.

Lemma reportedOf_drawItems (browser : Browser) (totalItems i : nat)
    (layout : list MasonryItem.t) :
  reportedOf (fst (drawItems browser totalItems i layout))
  = map (fun item => ProcessedImage.originalFile (MasonryItem.image item))
      (List.filter
         (fun item =>
            negb (loadImage browser
                    (ProcessedImage.display (MasonryItem.image item))))
         layout).
Proof.
  revert i. induction layout as [|item rest IH]; intros i; [reflexivity|].
  rewrite drawItems_cons. unfold reportedOf in *. rewrite omap_app, IH.
  simpl. destruct (loadImage browser _); reflexivity.
Qed.

(** Once the canvas has its context, what is drawn is the layout, less
    the items whose image does not load. *)
Lemma drawnOf_generateBanner (browser : Browser)
    (images : list ProcessedImage.t) (config : PrintConfig.t) :
  images <> [] ->
  (fst (bannerPixels config) <= 16000)%Z ->
  (snd (bannerPixels config) <= 16000)%Z ->
  getContext browser = true ->
  drawnOf (fst (generateBanner browser images config))
  = map drawing
      (List.filter
         (fun item =>
            loadImage browser (ProcessedImage.display (MasonryItem.image item)))
         (bannerLayout images config)).
Proof.
  intros Himages Hwidth Hheight Hcontext.
  rewrite (generateBanner_unfolded browser images config Himages Hwidth
             Hheight), Hcontext.
  destruct (length (bannerLayout images config) =? 0)%nat eqn:Hempty.
  - apply Nat.eqb_eq, length_zero_iff_nil in Hempty. rewrite Hempty.
    reflexivity.
  - unfold drawingTrace, drawnOf. simpl. rewrite !omap_app.
    fold (drawnOf (fst (drawItems browser
                          (length (bannerLayout images config)) 0
                          (bannerLayout images config)))).
    rewrite drawnOf_drawItems.
    destruct (canvasToBlob browser); simpl; rewrite !app_nil_r; reflexivity.
Qed.

(** X9: once the canvas has its context, the images drawn are the items
    of the layout whose image loads, in the order of the layout and each
    at its rectangle; the items whose image does not load are reported to
    the console, in order, and nothing else is. *)
Theorem generateBanner_draws_the_layout (browser : Browser)
    (images : list ProcessedImage.t) (config : PrintConfig.t) :
  images <> [] ->
  (fst (bannerPixels config) <= 16000)%Z ->
  (snd (bannerPixels config) <= 16000)%Z ->
  getContext browser = true ->
  drawnOf (fst (generateBanner browser images config))
  = map drawing
      (List.filter
         (fun item =>
            loadImage browser (ProcessedImage.display (MasonryItem.image item)))
         (bannerLayout images config))
  /\ reportedOf (fst (generateBanner browser images config))
     = map (fun item => ProcessedImage.originalFile (MasonryItem.image item))
         (List.filter
            (fun item =>
               negb (loadImage browser
                       (ProcessedImage.display (MasonryItem.image item))))
            (bannerLayout images config)).
Proof.
  intros Himages Hwidth Hheight Hcontext.
  split; [apply drawnOf_generateBanner; assumption|].
  rewrite (generateBanner_unfolded browser images config Himages Hwidth
             Hheight), Hcontext.
  destruct (length (bannerLayout images config) =? 0)%nat eqn:Hempty.
  - apply Nat.eqb_eq, length_zero_iff_nil in Hempty. rewrite Hempty.
    reflexivity.
  - unfold drawingTrace, reportedOf. simpl. rewrite !omap_app.
    fold (reportedOf (fst (drawItems browser
                             (length (bannerLayout images config)) 0
                             (bannerLayout images config)))).
    rewrite reportedOf_drawItems.
    destruct (canvasToBlob browser); simpl; rewrite !app_nil_r; reflexivity.
Qed.

(** *** The progress reported *)

Lemma ascending_nil : ascending [].
Proof. intros i j p q _ Hp. destruct i; discriminate. Qed.

Lemma ascending_cons (p : Z) (ps : list Z) :
  Forall (Z.le p) ps -> ascending ps -> ascending (p :: ps).
Proof.
  intros Hall Hps i j p' q Hij Hp Hq. rewrite Forall_forall in Hall.
  destruct i as [|i], j as [|j]; simpl in Hp, Hq; try lia.
  - injection Hp as <-. injection Hq as <-. lia.
  - injection Hp as <-. apply Hall. apply list_elem_of_lookup. eauto.
  - apply (Hps i j p' q); [lia | exact Hp | exact Hq].
Qed.

Lemma ascending_app (ps qs : list Z) :
  ascending ps -> ascending qs ->
  (forall p q, p ∈ ps -> q ∈ qs -> (p <= q)%Z) ->
  ascending (ps ++ qs).
Proof.
  intros Hps Hqs Hcross i j p q Hij Hp Hq.
  apply lookup_app_Some in Hp, Hq.
  destruct Hp as [Hp|[Hi Hp]], Hq as [Hq|[Hj Hq]].
  - exact (Hps i j p q Hij Hp Hq).
  - apply Hcross; apply list_elem_of_lookup; eauto.
  - apply lookup_lt_Some in Hq. lia.
  - apply (Hqs (i - length ps)%nat (j - length ps)%nat p q);
      [lia | exact Hp | exact Hq].
Qed.

Lemma drawProgress_mono (totalItems i j : nat) :
  (0 < totalItems)%nat -> (i <= j)%nat ->
  (drawProgress totalItems i <= drawProgress totalItems j)%Z.
Proof.
  intros Htotal Hij. unfold drawProgress, Math_floor.
  apply Z.add_le_mono_l, Qfloor_resp_le.
  assert (0 < of_nat totalItems) as Hpos.
  { pose proof (of_nat_lt 0 totalItems Htotal) as H.
    change (of_nat 0) with 0 in H. lra. }
  assert (of_nat (i + 1) <= of_nat (j + 1)) as Hle.
  { unfold of_nat. rewrite <- Zle_Qle. lia. }
  apply Qmult_le_compat_r; [|lra].
  apply Qle_shift_div_l; [exact Hpos|].
  unfold Qdiv. rewrite <- Qmult_assoc, (Qmult_comm (/ _)), Qmult_inv_r; lra.
Qed.

Lemma drawProgress_range (totalItems i : nat) :
  (i < totalItems)%nat ->
  (30 <= drawProgress totalItems i <= 90)%Z.
Proof.
  intros Hi. unfold drawProgress, Math_floor.
  assert (0 < of_nat totalItems) as Hpos.
  { pose proof (of_nat_lt 0 totalItems ltac:(lia)) as H.
    change (of_nat 0) with 0 in H. lra. }
  assert (0 <= of_nat (i + 1)) as Hlow by apply of_nat_nonneg.
  assert (of_nat (i + 1) <= of_nat totalItems) as Hhigh.
  { unfold of_nat. rewrite <- Zle_Qle. lia. }
  assert (0 <= of_nat (i + 1) / of_nat totalItems) as Hlow'.
  { apply Qle_shift_div_l; [exact Hpos | lra]. }
  assert (of_nat (i + 1) / of_nat totalItems <= 1) as Hhigh'.
  { apply Qle_shift_div_r; [exact Hpos | lra]. }
  pose proof (Qfloor_resp_le 0 (of_nat (i + 1) / of_nat totalItems * 60)
                ltac:(lra)) as Hfloor0.
  pose proof (Qfloor_resp_le (of_nat (i + 1) / of_nat totalItems * 60) 60
                ltac:(lra)) as Hfloor60.
  change (Qfloor 0) with 0%Z in Hfloor0.
  change (Qfloor 60) with 60%Z in Hfloor60. lia.
Qed.

(** The drawing loop reports, for the items that load, the progress of
    their indices. *)
Lemma progressOf_drawItems (browser : Browser) (totalItems : nat)
    (layout : list MasonryItem.t) (i : nat) :
  (i + length layout <= totalItems)%nat ->
  ascending (progressOf (fst (drawItems browser totalItems i layout)))
  /\ forall p,
       p ∈ progressOf (fst (drawItems browser totalItems i layout)) ->
       exists j, (i <= j < i + length layout)%nat
                 /\ p = drawProgress totalItems j.
Proof.
  revert i. induction layout as [|item rest IH]; intros i Hlen.
  - split; [apply ascending_nil | intros p Hin; inversion Hin].
  - simpl in Hlen. destruct (IH (S i) ltac:(lia)) as [Hrest Hvalues].
    rewrite drawItems_cons. unfold progressOf in *. rewrite omap_app.
    destruct (loadImage browser _); simpl.
    + split.
      * apply ascending_cons; [|exact Hrest].
        apply Forall_forall. intros p Hin.
        destruct (Hvalues p Hin) as (j & Hj & ->).
        apply drawProgress_mono; lia.
      * intros p Hin. apply elem_of_cons in Hin.
        destruct Hin as [->|Hin]; [exists i; split; [lia | reflexivity]|].
        destruct (Hvalues p Hin) as (j & Hj & ->).
        exists j. split; [lia | reflexivity].
    + split; [exact Hrest|].
      intros p Hin. destruct (Hvalues p Hin) as (j & Hj & ->).
      exists j. split; [lia | reflexivity].
Qed.

Lemma progressOf_drawingTrace (browser : Browser) (bannerWidth bannerHeight : Z)
    (quality : Q) (layout : list MasonryItem.t) :
  progressOf (drawingTrace browser bannerWidth bannerHeight quality layout)
  = [5; 10; 20; 30]%Z
    ++ progressOf (fst (drawItems browser (length layout) 0 layout))
    ++ [95%Z]
    ++ match canvasToBlob browser with
       | blobResult _ => [100%Z]
       | _ => []
       end.
Proof.
  unfold drawingTrace, progressOf. simpl. rewrite !omap_app.
  destruct (canvasToBlob browser); reflexivity.
Qed.

Ltac in_literal H :=
  repeat (apply elem_of_cons in H; destruct H as [H|H]);
  first [subst; lia | discriminate | inversion H].

Ltac ascending_literal :=
  repeat first [apply ascending_nil | apply ascending_cons
               | apply Forall_nil_2 | apply Forall_cons_2 | lia].

(** The progress of a run that stops before the canvas is drawn on. *)
Lemma early_progress (ps : list Z) :
  ps = [] \/ ps = [5%Z] \/ ps = [5; 10]%Z \/ ps = [5; 10; 20]%Z ->
  ascending ps
  /\ (forall p, p ∈ ps -> (5 <= p <= 100)%Z)
  /\ ~ 100%Z ∈ ps.
Proof.
  intros Hps. split; [|split].
  - destruct Hps as [-> | [-> | [-> | ->]]]; ascending_literal.
  - intros p Hin. destruct Hps as [-> | [-> | [-> | ->]]]; in_literal Hin.
  - intros Hin. destruct Hps as [-> | [-> | [-> | ->]]]; in_literal Hin.
Qed.

(** The progress of a run that draws: the four steps before the loop,
    what the loop reports, 95, and 100 when there is a blob. *)
Lemma drawing_progress (drawn final : list Z) :
  ascending drawn ->
  (forall p, p ∈ drawn -> (30 <= p <= 90)%Z) ->
  final = [] \/ final = [100%Z] ->
  ascending ([5; 10; 20; 30]%Z ++ drawn ++ [95%Z] ++ final)
  /\ (forall p,
        p ∈ [5; 10; 20; 30]%Z ++ drawn ++ [95%Z] ++ final ->
        (5 <= p <= 100)%Z)
  /\ (100%Z ∈ [5; 10; 20; 30]%Z ++ drawn ++ [95%Z] ++ final
      <-> final = [100%Z]).
Proof.
  intros Hasc Hdrawn Hfinal.
  assert (forall p, p ∈ [5; 10; 20; 30]%Z -> (5 <= p <= 30)%Z) as Hhead
    by (intros p Hin; in_literal Hin).
  assert (forall p, p ∈ [95%Z] ++ final -> (95 <= p <= 100)%Z) as Htail
    by (intros p Hin; destruct Hfinal as [-> | ->]; in_literal Hin).
  split; [|split].
  - apply ascending_app; [ascending_literal| |].
    + apply ascending_app; [exact Hasc| |].
      * destruct Hfinal as [-> | ->]; ascending_literal.
      * intros p q Hp Hq. apply Hdrawn in Hp. apply Htail in Hq. lia.
    + intros p q Hp Hq. apply Hhead in Hp. apply elem_of_app in Hq.
      destruct Hq as [Hq|Hq]; [apply Hdrawn in Hq | apply Htail in Hq]; lia.
  - intros p Hin. apply elem_of_app in Hin.
    destruct Hin as [Hin|Hin]; [apply Hhead in Hin; lia|].
    apply elem_of_app in Hin.
    destruct Hin as [Hin|Hin]; [apply Hdrawn in Hin | apply Htail in Hin];
      lia.
  - split.
    + intros Hin. apply elem_of_app in Hin.
      destruct Hin as [Hin|Hin]; [apply Hhead in Hin; lia|].
      apply elem_of_app in Hin.
      destruct Hin as [Hin|Hin]; [apply Hdrawn in Hin; lia|].
      destruct Hfinal as [-> | ->]; [in_literal Hin | reflexivity].
    + intros ->. apply elem_of_app. right. apply elem_of_app. right.
      right. left.
Qed.

(** X10: the progress [generateBanner] reports never goes down and lies
    between 5 and 100; 100 is reported exactly when the banner is
    produced. *)
Theorem generateBanner_progress_ascends (browser : Browser)
    (images : list ProcessedImage.t) (config : PrintConfig.t) :
  ascending (progressOf (fst (generateBanner browser images config)))
  /\ (forall p,
        p ∈ progressOf (fst (generateBanner browser images config)) ->
        (5 <= p <= 100)%Z)
  /\ (100%Z ∈ progressOf (fst (generateBanner browser images config))
      <-> exists blob,
            snd (generateBanner browser images config) = inr blob).
Proof.
  assert (forall ps (failure : Error),
            (ps = [] \/ ps = [5%Z] \/ ps = [5; 10]%Z \/ ps = [5; 10; 20]%Z) ->
            ascending ps
            /\ (forall p, p ∈ ps -> (5 <= p <= 100)%Z)
            /\ (100%Z ∈ ps
                <-> exists blob : Blob, @inl Error Blob failure = inr blob))
    as Hfails.
  { intros ps failure Hps.
    destruct (early_progress ps Hps) as (Hasc & Hrange & Hno).
    split; [exact Hasc|]. split; [exact Hrange|].
    split; [intros Hin; contradiction | intros [blob Hblob]; discriminate]. }
  destruct images as [|image rest]; [apply Hfails; auto|].
  destruct ((fst (bannerPixels config) >? 16000)%Z
            || (snd (bannerPixels config) >? 16000)%Z) eqn:Hlarge.
  { rewrite generateBanner_too_large;
      [apply Hfails; auto | discriminate|].
    apply orb_true_iff in Hlarge. unfold maxDimension. lia. }
  apply orb_false_iff in Hlarge.
  rewrite generateBanner_unfolded;
    [|discriminate | unfold maxDimension; lia | unfold maxDimension; lia].
  set (layout := bannerLayout (image :: rest) config).
  destruct (length layout =? 0)%nat; [apply Hfails; auto|].
  destruct (getContext browser); [|apply Hfails; auto].
  simpl fst. simpl snd. rewrite progressOf_drawingTrace.
  destruct (progressOf_drawItems browser (length layout) layout 0
              ltac:(simpl; lia)) as [Hasc Hvalues].
  assert (forall p,
            p ∈ progressOf (fst (drawItems browser (length layout) 0 layout))
            -> (30 <= p <= 90)%Z) as Hdrawn.
  { intros p Hin. destruct (Hvalues p Hin) as (j & Hj & ->).
    apply drawProgress_range. lia. }
  unfold blobOutcome.
  destruct (canvasToBlob browser) as [blob| |reason].
  - destruct (drawing_progress _ [100%Z] Hasc Hdrawn ltac:(right; reflexivity))
      as (Hall & Hrange & Hdone).
    split; [exact Hall|]. split; [exact Hrange|].
    rewrite Hdone. split; eauto.
  - destruct (drawing_progress _ [] Hasc Hdrawn ltac:(left; reflexivity))
      as (Hall & Hrange & Hdone).
    split; [exact Hall|]. split; [exact Hrange|].
    rewrite Hdone. split; [discriminate | intros [blob Hblob]; discriminate].
  - destruct (drawing_progress _ [] Hasc Hdrawn ltac:(left; reflexivity))
      as (Hall & Hrange & Hdone).
    split; [exact Hall|]. split; [exact Hrange|].
    rewrite Hdone. split; [discriminate | intros [blob Hblob]; discriminate].
Qed.

(** *** The banner drawn *)

Lemma bannerColumns_range (bannerWidth : Z) :
  (1 <= bannerColumns bannerWidth <= 5)%nat.
Proof. unfold bannerColumns. lia. Qed.

(** From a width of 20 pixels on, the columns [generateBanner] chooses
    and their gaps of 10 fit the banner. *)
Lemma bannerColumns_fit (bannerWidth : Z) :
  (20 <= bannerWidth)%Z ->
  10 * (of_nat (bannerColumns bannerWidth) + 1) <= inject_Z bannerWidth.
Proof.
  intros Hwide. unfold bannerColumns, Math_floor, of_nat.
  change 400 with (inject_Z 400). rewrite <- Zdiv_Qdiv.
  rewrite Z2Nat.id by lia.
  change 10 with (inject_Z 10). change 1 with (inject_Z 1).
  rewrite <- inject_Z_plus, <- inject_Z_mult, <- Zle_Qle.
  pose proof (Z.mul_div_le bannerWidth 400 ltac:(lia)). lia.
Qed.

(** An item of a layout whose columns are not of negative width lies
    within the banner. *)
Lemma layout_item_fits_canvas (bannerWidth bannerHeight : Q) (columns : nat)
    (gap : Q) (images : list ProcessedImage.t) (item : MasonryItem.t) :
  (1 <= columns)%nat ->
  0 <= gap ->
  Forall positiveDimensions images ->
  gap * (of_nat columns + 1) <= bannerWidth ->
  item ∈ calculateMasonryLayout images bannerWidth bannerHeight columns gap ->
  withinCanvas bannerWidth bannerHeight item
  /\ 0 <= MasonryItem.width item /\ 0 <= MasonryItem.height item.
Proof.
  intros Hcolumns Hgap Hpositive Hwide Hin.
  pose proof (columnWidth_nonneg bannerWidth columns gap Hcolumns Hwide)
    as Hwidth.
  pose proof (columnWidth_columns bannerWidth columns gap Hcolumns) as Htimes.
  destruct (run_heights_from_gap bannerWidth bannerHeight columns gap images
              Hpositive Hwidth Hgap) as [_ Hlow].
  specialize (Hlow item Hin).
  destruct (run_items_shape bannerWidth bannerHeight columns gap images item
              Hin) as (image & c & y & Himage & Hc & -> & Hfit).
  rewrite Forall_forall in Hpositive.
  pose proof (placedHeight_nonneg bannerWidth columns gap image
                (Hpositive image Himage) Hwidth) as Hheight.
  pose proof (of_nat_nonneg c) as Hc0.
  pose proof (of_nat_lt c columns Hc) as Hc1.
  unfold withinCanvas, placedItem, columnX in *. simpl in *.
  set (width := columnWidth bannerWidth columns gap) in *.
  assert (of_nat c * (width + gap) <= (of_nat columns - 1) * (width + gap))
    as Hcol by nra.
  assert (0 <= of_nat c * (width + gap)) as Hcol0 by nra.
  repeat split; nra.
Qed.

(** X11: for images of positive dimensions and a banner at least 20
    pixels wide, every image [generateBanner] draws is drawn within the
    canvas: its rectangle has a width and a height that are not negative
    and lies within [[0, bannerWidth] x [0, bannerHeight]]. *)
Theorem generateBanner_draws_within_canvas (browser : Browser)
    (images : list ProcessedImage.t) (config : PrintConfig.t)
    (src : string) (x y w h : Q) :
  Forall positiveDimensions images ->
  (20 <= fst (bannerPixels config))%Z ->
  drawImage src x y w h ∈ fst (generateBanner browser images config) ->
  0 <= x /\ 0 <= y /\ 0 <= w /\ 0 <= h
  /\ x + w <= inject_Z (fst (bannerPixels config))
  /\ y + h <= inject_Z (snd (bannerPixels config)).
Proof.
  intros Hpositive Hwide Hin.
  assert ((src, x, y, w, h)
            ∈ drawnOf (fst (generateBanner browser images config))) as Hdrawn.
  { unfold drawnOf. apply list_elem_of_omap.
    exists (drawImage src x y w h). split; [exact Hin | reflexivity]. }
  clear Hin.
  destruct images as [|image rest]; [inversion Hdrawn|].
  destruct ((fst (bannerPixels config) >? 16000)%Z
            || (snd (bannerPixels config) >? 16000)%Z) eqn:Hlarge.
  { rewrite generateBanner_too_large in Hdrawn;
      [inversion Hdrawn | discriminate|].
    apply orb_true_iff in Hlarge. unfold maxDimension. lia. }
  apply orb_false_iff in Hlarge.
  destruct (getContext browser) eqn:Hcontext.
  - rewrite (drawnOf_generateBanner browser (image :: rest) config) in Hdrawn;
      [|discriminate | lia | lia | exact Hcontext]. apply list_elem_of_In, in_map_iff in Hdrawn.
    destruct Hdrawn as (item & Hitem & Hitemin).
    apply filter_In in Hitemin. destruct Hitemin as [Hitemin _].
    apply list_elem_of_In in Hitemin. unfold bannerLayout in Hitemin.
    assert (0 <= 10) as Hgap by discriminate.
    destruct (layout_item_fits_canvas _ _ _ _ _ item
                (proj1 (bannerColumns_range _)) Hgap
                Hpositive (bannerColumns_fit _ Hwide) Hitemin)
      as (Hwithin & Hw & Hh).
    unfold drawing in Hitem. injection Hitem as _ <- <- <- <-.
    unfold withinCanvas in Hwithin. tauto.
  - rewrite generateBanner_unfolded in Hdrawn;
      [|discriminate | unfold maxDimension; lia | unfold maxDimension; lia].
    rewrite Hcontext in Hdrawn.
    destruct (length _ =? 0)%nat; inversion Hdrawn.
Qed.

(** X12: with at least one image, the [PrintSettings] component shows
    its warning for exactly the sizes for which [generateBanner] fails
    with the error of too large dimensions. *)
Theorem warning_shown_iff_banner_too_large (browser : Browser)
    (images : list ProcessedImage.t) (config : PrintConfig.t) :
  images <> [] ->
  showsWarning config = true
  <-> exists limit width height,
        snd (generateBanner browser images config)
        = inl (DimensionsTooLarge limit width height).
Proof.
  intros Himages. unfold showsWarning.
  rewrite calculatePixelDimensions_bannerPixels.
  destruct (bannerPixels config) as [width height] eqn:Hpixels.
  rewrite orb_true_iff. split.
  - intros Hlarge.
    rewrite generateBanner_too_large;
      [eauto | exact Himages | rewrite Hpixels; unfold maxDimension; simpl; lia].
  - intros (limit & width' & height' & Hfails).
    destruct (Z_le_gt_dec width 16000) as [Hwidth|Hwidth]; [|lia].
    destruct (Z_le_gt_dec height 16000) as [Hheight|Hheight]; [|lia].
    destruct (generateBanner_reaches_layout browser images config Himages)
      as (trace & result & Hrun & Hother);
      [rewrite Hpixels; exact Hwidth | rewrite Hpixels; exact Hheight|].
    rewrite Hrun in Hfails. simpl in Hfails.
    exfalso. exact (Hother _ _ _ Hfails).
Qed.

(** ** The sizes of files *)

Lemma Qfloor_between (x : Q) (z : Z) :
  inject_Z z <= x -> x < inject_Z (z + 1) -> Qfloor x = z.
Proof.
  intros Hlow Hhigh.
  pose proof (Qfloor_le x) as Hfloor. pose proof (Qlt_floor x) as Hnext.
  assert (inject_Z (Qfloor x) < inject_Z (z + 1)) as Hup by lra.
  assert (inject_Z z < inject_Z (Qfloor x + 1)) as Hdown by lra.
  rewrite <- Zlt_Qlt in Hup, Hdown. lia.
Qed.

(** X15: a file of 1048525 to 1048575 bytes, less than a megabyte by at
    most 51 bytes, is shown as [1024.0 KB]: the kilobytes are rounded to
    a tenth after the unit is chosen. *)
Theorem formatFileSize_just_below_megabyte (bytes : Z) :
  (1048525 <= bytes < 1048576)%Z ->
  formatFileSize bytes = "1024.0 KB"%string.
Proof.
  intros [Hlow Hhigh]. unfold formatFileSize.
  replace (bytes <? 1024)%Z with false by lia.
  replace (bytes <? 1024 * 1024)%Z with true by lia.
  unfold toFixed1.
  assert (inject_Z bytes / 1024 == inject_Z bytes * (1 # 1024)) as Hkilo
    by (field; discriminate).
  rewrite (Qfloor_between (inject_Z bytes / 1024 * 10 + (1 # 2)) 10240).
  - reflexivity.
  - rewrite Zle_Qle in Hlow.
    change (inject_Z 1048525) with 1048525 in Hlow.
    change (inject_Z 10240) with 10240. rewrite Hkilo. lra.
  - rewrite Zlt_Qlt in Hhigh.
    change (inject_Z 1048576) with 1048576 in Hhigh.
    change (inject_Z (10240 + 1)) with 10241. rewrite Hkilo. lra.
Qed.

(** ** The progress of the uploader *)

(** A number written out does not start with the letter t. *)
Lemma show_head (z : Z) :
  exists c rest, show z = String c rest /\ c <> "t"%char.
Proof.
  unfold show. destruct (Z.to_int z) as [d|d]; simpl.
  - destruct d; simpl; eexists _, _; (split; [reflexivity | discriminate]).
  - eexists _, _. split; [reflexivity | discriminate].
Qed.

Lemma generateId_is_no_tempId (now : Z) (random : string) (index : nat)
    (now' : Z) :
  generateId now random <> tempId index now'.
Proof.
  unfold generateId, tempId.
  destruct (show_head now) as (c & rest & -> & Hc).
  simpl. intros Heq. injection Heq as Heq _. congruence.
Qed.

Lemma Map_get_absent {V : Type} (map : StringMap V) (key : string) :
  Forall (fun entry => fst entry <> key) map -> Map_get map key = None.
Proof.
  induction map as [|[k v] rest IH]; intros Hkeys; [reflexivity|].
  apply Forall_cons in Hkeys. destruct Hkeys as [Hk Hrest]. simpl in *.
  destruct (String.eqb_spec k key) as [Heq|_]; [contradiction | auto].
Qed.

Lemma Map_set_keys {V : Type} (P : string -> Prop) (map : StringMap V)
    (key : string) (value : V) :
  Forall (fun entry => P (fst entry)) map -> P key ->
  Forall (fun entry => P (fst entry)) (Map_set map key value).
Proof.
  intros Hmap Hkey. induction map as [|[k v] rest IH]; simpl.
  - repeat constructor. exact Hkey.
  - apply Forall_cons in Hmap. destruct Hmap as [Hk Hrest].
    destruct (String.eqb k key); constructor; auto.
Qed.

(** Every key of the map of the uploader is a [tempId]. *)
Lemma trackFrom_keys (clock : nat -> Z) (fileNames : list string)
    (index : nat) (progressMap : StringMap ProcessingProgress.t) :
  Forall (fun entry => exists i now, fst entry = tempId i now) progressMap ->
  Forall (fun entry => exists i now, fst entry = tempId i now)
    (trackFrom clock index fileNames progressMap).
Proof.
  revert index progressMap.
  induction fileNames as [|name rest IH]; intros index progressMap Hmap;
    simpl; [exact Hmap|].
  apply IH.
  apply (Map_set_keys (fun key => exists i now, key = tempId i now));
    [exact Hmap | eauto].
Qed.

(** X16: the progress [processImages] reports never reaches the progress
    bars of the uploader.  It is reported under an id made by
    [generateId], which starts with the digits of the time, while the
    entries of the map are kept under keys that start with [temp-]: the
    update finds no entry and leaves the map as it is, every file at
    progress 0 and stage [loading]. *)
Theorem reportProgress_changes_nothing (clock : nat -> Z)
    (fileNames : list string) (reports : list (Z * string * Z)) :
  fold_left
    (fun prev '(now, random, progress) =>
       reportProgress prev (generateId now random) progress)
    reports (initialProgress clock fileNames)
  = initialProgress clock fileNames
  /\ Forall (fun entry =>
               ProcessingProgress.progress (snd entry) = 0%Z
               /\ ProcessingProgress.stage (snd entry)
                  = ProcessingProgress.loading)
       (initialProgress clock fileNames).
Proof.
  split.
  - induction reports as [|[[now random] progress] rest IH];
      [reflexivity|].
    simpl. unfold reportProgress at 2.
    rewrite Map_get_absent; [exact IH|].
    pose proof (trackFrom_keys clock fileNames 0 [] (Forall_nil_2 _))
      as Hkeys.
    unfold initialProgress. eapply Forall_impl; [exact Hkeys|].
    intros entry (i & now' & Hkey) Heq. rewrite Hkey in Heq.
    symmetry in Heq. exact (generateId_is_no_tempId _ _ _ _ Heq).
  - unfold initialProgress.
    cut (forall index progressMap,
           Forall (fun entry =>
                     ProcessingProgress.progress (snd entry) = 0%Z
                     /\ ProcessingProgress.stage (snd entry)
                        = ProcessingProgress.loading) progressMap ->
           Forall (fun entry =>
                     ProcessingProgress.progress (snd entry) = 0%Z
                     /\ ProcessingProgress.stage (snd entry)
                        = ProcessingProgress.loading)
             (trackFrom clock index fileNames progressMap)).
    { intros H. apply H. constructor. }
    induction fileNames as [|name rest IH]; intros index progressMap Hmap;
      simpl; [exact Hmap|].
    apply IH. clear IH.
    induction progressMap as [|[k v] more IHmap]; simpl.
    + repeat constructor.
    + apply Forall_cons in Hmap. destruct Hmap as [Hk Hmore].
      destruct (String.eqb k _); constructor; simpl; auto.
Qed.

(** ** The number of columns *)

(** X17: a banner at least 400 pixels wide is laid out in one to five
    columns, each at least 380 pixels wide. *)
Theorem banner_columns_are_wide (bannerWidth : Z) :
  (400 <= bannerWidth)%Z ->
  (1 <= bannerColumns bannerWidth <= 5)%nat
  /\ 380 <= columnWidth (inject_Z bannerWidth) (bannerColumns bannerWidth) 10.
Proof.
  intros Hwide. split; [apply bannerColumns_range|].
  assert (inject_Z 400 * of_nat (bannerColumns bannerWidth)
          <= inject_Z bannerWidth) as Hcolumns.
  { unfold bannerColumns, Math_floor, of_nat.
    change 400 with (inject_Z 400). rewrite <- Zdiv_Qdiv.
    rewrite Z2Nat.id by lia.
    rewrite <- inject_Z_mult, <- Zle_Qle.
    pose proof (Z.mul_div_le bannerWidth 400 ltac:(lia)).
    pose proof (Z.div_le_lower_bound bannerWidth 400 1 ltac:(lia) ltac:(lia)).
    lia. }
  change (inject_Z 400) with 400 in Hcolumns.
  pose proof (of_nat_lt 0 (bannerColumns bannerWidth)
                (proj1 (bannerColumns_range bannerWidth))) as Hone.
  change (of_nat 0) with 0 in Hone.
  unfold columnWidth. apply Qle_shift_div_l; lra.
Qed.

(** ** The further properties at work *)

Lemma layout_stacks_items_gap_apart_witness :
  exists b,
    calculateMasonryLayout [square "a"; square "b"] 500 2000 1 10 !! 1%nat
    = Some b
    /\ (MasonryItem.y b = 10
        \/ exists k a,
             (k < 1)%nat
             /\ calculateMasonryLayout [square "a"; square "b"] 500 2000 1 10
                  !! k = Some a
             /\ MasonryItem.x a = MasonryItem.x b
             /\ MasonryItem.y b
                = MasonryItem.y a + MasonryItem.height a + 10).
Proof.
  eexists. split; [reflexivity|].
  apply (layout_stacks_items_gap_apart 500 2000 1 10
           [square "a"; square "b"] 1).
  reflexivity.
Defined.

Lemma generateBanner_draws_the_layout_witness :
  [square "a"; square "b"] <> []
  /\ (fst (bannerPixels tenByFifteenInches) <= 16000)%Z
  /\ (snd (bannerPixels tenByFifteenInches) <= 16000)%Z
  /\ getContext willingBrowser = true
  /\ drawnOf (fst (generateBanner willingBrowser [square "a"; square "b"]
                     tenByFifteenInches))
     = map drawing
         (List.filter
            (fun item =>
               loadImage willingBrowser
                 (ProcessedImage.display (MasonryItem.image item)))
            (bannerLayout [square "a"; square "b"] tenByFifteenInches)).
Proof.
  split; [discriminate|]. split; [vm_compute; discriminate|].
  split; [vm_compute; discriminate|]. split; [reflexivity|].
  apply (generateBanner_draws_the_layout willingBrowser
           [square "a"; square "b"] tenByFifteenInches);
    [discriminate | vm_compute; discriminate | vm_compute; discriminate
    | reflexivity].
Defined.

Lemma generateBanner_draws_within_canvas_witness :
  Forall positiveDimensions [square "a"]
  /\ (20 <= fst (bannerPixels tenByFifteenInches))%Z
  /\ exists src x y w h,
       drawImage src x y w h
         ∈ fst (generateBanner willingBrowser [square "a"] tenByFifteenInches)
       /\ 0 <= x /\ 0 <= y /\ 0 <= w /\ 0 <= h
       /\ x + w <= inject_Z (fst (bannerPixels tenByFifteenInches))
       /\ y + h <= inject_Z (snd (bannerPixels tenByFifteenInches)).
Proof.
  split; [positive_images|]. split; [vm_compute; discriminate|].
  assert (exists src x y w h,
            drawImage src x y w h
              ∈ fst (generateBanner willingBrowser [square "a"]
                       tenByFifteenInches))
    as (src & x & y & w & h & Hin).
  { remember (fst (generateBanner willingBrowser [square "a"]
                     tenByFifteenInches)) as trace eqn:Htrace.
    vm_compute in Htrace. subst trace. eexists _, _, _, _, _.
    do 6 apply list_elem_of_further. apply list_elem_of_here. }
  exists src, x, y, w, h. split; [exact Hin|].
  apply (generateBanner_draws_within_canvas willingBrowser [square "a"]
           tenByFifteenInches src x y w h);
    [positive_images | vm_compute; discriminate | exact Hin].
Defined.

Lemma warning_shown_iff_banner_too_large_witness :
  [square "a"] <> []
  /\ (showsWarning twentyThousandPixels = true
      <-> exists limit width height,
            snd (generateBanner willingBrowser [square "a"]
                   twentyThousandPixels)
            = inl (DimensionsTooLarge limit width height)).
Proof.
  split; [discriminate|].
  apply (warning_shown_iff_banner_too_large willingBrowser [square "a"]
           twentyThousandPixels).
  discriminate.
Defined.

Lemma formatFileSize_just_below_megabyte_witness :
  (1048525 <= 1048575 < 1048576)%Z
  /\ formatFileSize 1048575 = "1024.0 KB"%string.
Proof.
  split; [lia|].
  apply (formatFileSize_just_below_megabyte 1048575). lia.
Defined.

Lemma banner_columns_are_wide_witness :
  (400 <= 3000)%Z
  /\ (1 <= bannerColumns 3000 <= 5)%nat
  /\ 380 <= columnWidth (inject_Z 3000) (bannerColumns 3000) 10.
Proof.
  split; [lia|]. apply (banner_columns_are_wide 3000). lia.
Defined.
